(** * Memory game: the match engine of [script.js]

    A shallow embedding of the game logic of [script.js] (the same logic
    appears, with audio calls added, in the two audio-enabled variants of
    the script), together with the part of the browser it runs against:
    the card elements it creates, and the timers it registers with
    [setTimeout] and [setInterval].

    - A card element is a [Card]: its [dataset.icon] and whether its
      [classList] contains ["flipped"] and ["matched"].  Elements are
      objects: they live in a [heap] that only grows, and the script's
      variables ([cards], [flippedCards], the closures of pending
      callbacks) hold references into it.  [createBoard] builds new
      elements; the elements of the previous board stay alive for as long
      as a pending callback refers to them.
    - Numbers are JavaScript doubles in the source.  The counters only
      ever hold small non-negative integers, modelled as [nat].
    - Time is counted in milliseconds.  A pending timer records how many
      milliseconds are left before it fires; timers that come due in the
      same millisecond run in the order in which they were registered.
    - Animation, tilt, sound and the text nodes that mirror [moves] and
      [time] have no influence on the game state and are left out. *)

From Stdlib Require Import QArith Qround.
From stdpp Require Import base list strings.

Local Close Scope Q_scope.
Local Open Scope nat_scope.

(** ** Shuffle *)

Section Shuffle.
Context {A : Type}.

(** [[array[i], array[j]] = [array[j], array[i]]]: both reads happen
    before both writes.  The loop of [shuffle] only produces indices
    inside the array; outside it the list is left as it is (JavaScript
    would grow the array). *)
Definition swap (i j : nat) (array : list A) : list A :=
  match array !! i, array !! j with
  | Some x, Some y => <[j := x]> (<[i := y]> array)
  | _, _ => array
  end.

(** [Math.floor(Math.random() * (i + 1))], for a result [r] of
    [Math.random()]. *)
Definition random_index (r : Q) (i : nat) : nat :=
  Z.to_nat (Qfloor (r * inject_Z (Z.of_nat (i + 1)))).

(** The loop [for (let i = array.length - 1; i > 0; i--)].  [rnd k] is
    the result of the [k]-th call of [Math.random()]. *)
Fixpoint shuffle_from (rnd : nat → Q) (k i : nat) (array : list A) : list A :=
  match i with
  | 0 => array
  | S i' => shuffle_from rnd (S k) i' (swap i (random_index (rnd k) i) array)
  end.

Definition shuffle (rnd : nat → Q) (array : list A) : list A :=
  shuffle_from rnd 0 (length array - 1) array.
End Shuffle.

(** [Math.random()] returns a number in the interval [0, 1). *)
Definition unit_interval (r : Q) : Prop := (0 <= r)%Q ∧ (r < 1)%Q.

(** ** Game configuration and state *)

Definition icons : list string :=
  ["fa-heart"; "fa-star"; "fa-bolt"; "fa-moon";
   "fa-leaf"; "fa-gem"; "fa-fire"; "fa-music"]%string.

Record Card := { icon : string; flipped : bool; matched : bool }.

(** The callbacks the script hands to the browser: the body of the
    [setInterval] in [startTimer], the body of the [setTimeout] in
    [handleMismatch] with the two cards it closes over, and [endGame]. *)
Inductive Task :=
| Tick
| Revert (card1 card2 : nat)
| EndGame.

(** A registered timer: its id, the milliseconds left before it fires,
    its period when it was made by [setInterval], and its callback. *)
Record Timer := { tid : nat; delay : nat; every : option nat; task : Task }.

Record State := {
  heap : list Card;
  cards : list nat;
  flippedCards : list nat;
  matchedCount : nat;
  moves : nat;
  timer : option nat;
  time : nat;
  gameStarted : bool;
  lockBoard : bool;
  finalMoves : option nat;
  finalTime : option nat;
  winOverlay : bool;
  nextId : nat;
  timers : list Timer
}.

(** Field updates. *)

Definition set_heap (v : list Card) (s : State) : State :=
  {| heap := v; cards := cards s; flippedCards := flippedCards s;
     matchedCount := matchedCount s; moves := moves s; timer := timer s;
     time := time s; gameStarted := gameStarted s; lockBoard := lockBoard s;
     finalMoves := finalMoves s; finalTime := finalTime s;
     winOverlay := winOverlay s; nextId := nextId s; timers := timers s |}.

Definition set_cards (v : list nat) (s : State) : State :=
  {| heap := heap s; cards := v; flippedCards := flippedCards s;
     matchedCount := matchedCount s; moves := moves s; timer := timer s;
     time := time s; gameStarted := gameStarted s; lockBoard := lockBoard s;
     finalMoves := finalMoves s; finalTime := finalTime s;
     winOverlay := winOverlay s; nextId := nextId s; timers := timers s |}.

Definition set_flippedCards (v : list nat) (s : State) : State :=
  {| heap := heap s; cards := cards s; flippedCards := v;
     matchedCount := matchedCount s; moves := moves s; timer := timer s;
     time := time s; gameStarted := gameStarted s; lockBoard := lockBoard s;
     finalMoves := finalMoves s; finalTime := finalTime s;
     winOverlay := winOverlay s; nextId := nextId s; timers := timers s |}.

Definition set_matchedCount (v : nat) (s : State) : State :=
  {| heap := heap s; cards := cards s; flippedCards := flippedCards s;
     matchedCount := v; moves := moves s; timer := timer s; time := time s;
     gameStarted := gameStarted s; lockBoard := lockBoard s;
     finalMoves := finalMoves s; finalTime := finalTime s;
     winOverlay := winOverlay s; nextId := nextId s; timers := timers s |}.

Definition set_moves (v : nat) (s : State) : State :=
  {| heap := heap s; cards := cards s; flippedCards := flippedCards s;
     matchedCount := matchedCount s; moves := v; timer := timer s;
     time := time s; gameStarted := gameStarted s; lockBoard := lockBoard s;
     finalMoves := finalMoves s; finalTime := finalTime s;
     winOverlay := winOverlay s; nextId := nextId s; timers := timers s |}.

Definition set_timer (v : option nat) (s : State) : State :=
  {| heap := heap s; cards := cards s; flippedCards := flippedCards s;
     matchedCount := matchedCount s; moves := moves s; timer := v;
     time := time s; gameStarted := gameStarted s; lockBoard := lockBoard s;
     finalMoves := finalMoves s; finalTime := finalTime s;
     winOverlay := winOverlay s; nextId := nextId s; timers := timers s |}.

Definition set_time (v : nat) (s : State) : State :=
  {| heap := heap s; cards := cards s; flippedCards := flippedCards s;
     matchedCount := matchedCount s; moves := moves s; timer := timer s;
     time := v; gameStarted := gameStarted s; lockBoard := lockBoard s;
     finalMoves := finalMoves s; finalTime := finalTime s;
     winOverlay := winOverlay s; nextId := nextId s; timers := timers s |}.

Definition set_gameStarted (v : bool) (s : State) : State :=
  {| heap := heap s; cards := cards s; flippedCards := flippedCards s;
     matchedCount := matchedCount s; moves := moves s; timer := timer s;
     time := time s; gameStarted := v; lockBoard := lockBoard s;
     finalMoves := finalMoves s; finalTime := finalTime s;
     winOverlay := winOverlay s; nextId := nextId s; timers := timers s |}.

Definition set_lockBoard (v : bool) (s : State) : State :=
  {| heap := heap s; cards := cards s; flippedCards := flippedCards s;
     matchedCount := matchedCount s; moves := moves s; timer := timer s;
     time := time s; gameStarted := gameStarted s; lockBoard := v;
     finalMoves := finalMoves s; finalTime := finalTime s;
     winOverlay := winOverlay s; nextId := nextId s; timers := timers s |}.

Definition set_finalMoves (v : option nat) (s : State) : State :=
  {| heap := heap s; cards := cards s; flippedCards := flippedCards s;
     matchedCount := matchedCount s; moves := moves s; timer := timer s;
     time := time s; gameStarted := gameStarted s; lockBoard := lockBoard s;
     finalMoves := v; finalTime := finalTime s; winOverlay := winOverlay s;
     nextId := nextId s; timers := timers s |}.

Definition set_finalTime (v : option nat) (s : State) : State :=
  {| heap := heap s; cards := cards s; flippedCards := flippedCards s;
     matchedCount := matchedCount s; moves := moves s; timer := timer s;
     time := time s; gameStarted := gameStarted s; lockBoard := lockBoard s;
     finalMoves := finalMoves s; finalTime := v; winOverlay := winOverlay s;
     nextId := nextId s; timers := timers s |}.

Definition set_winOverlay (v : bool) (s : State) : State :=
  {| heap := heap s; cards := cards s; flippedCards := flippedCards s;
     matchedCount := matchedCount s; moves := moves s; timer := timer s;
     time := time s; gameStarted := gameStarted s; lockBoard := lockBoard s;
     finalMoves := finalMoves s; finalTime := finalTime s; winOverlay := v;
     nextId := nextId s; timers := timers s |}.

Definition set_nextId (v : nat) (s : State) : State :=
  {| heap := heap s; cards := cards s; flippedCards := flippedCards s;
     matchedCount := matchedCount s; moves := moves s; timer := timer s;
     time := time s; gameStarted := gameStarted s; lockBoard := lockBoard s;
     finalMoves := finalMoves s; finalTime := finalTime s;
     winOverlay := winOverlay s; nextId := v; timers := timers s |}.

Definition set_timers (v : list Timer) (s : State) : State :=
  {| heap := heap s; cards := cards s; flippedCards := flippedCards s;
     matchedCount := matchedCount s; moves := moves s; timer := timer s;
     time := time s; gameStarted := gameStarted s; lockBoard := lockBoard s;
     finalMoves := finalMoves s; finalTime := finalTime s;
     winOverlay := winOverlay s; nextId := nextId s; timers := v |}.

(** The state in which the script starts, before its last line calls
    [createBoard].  What the page shows in the two result fields before
    the script writes to them is not known: [None]. *)
Definition initial : State :=
  {| heap := []; cards := []; flippedCards := []; matchedCount := 0;
     moves := 0; timer := None; time := 0; gameStarted := false;
     lockBoard := false; finalMoves := None; finalTime := None;
     winOverlay := false; nextId := 0; timers := [] |}.

(** ** Browser timers *)

Definition setTimeout (t : Task) (ms : nat) (s : State) : State :=
  set_nextId (S (nextId s))
    (set_timers (timers s ++ [{| tid := nextId s; delay := ms; every := None; task := t |}]) s).

Definition setInterval (t : Task) (ms : nat) (s : State) : State :=
  set_nextId (S (nextId s))
    (set_timers (timers s ++ [{| tid := nextId s; delay := ms; every := Some ms; task := t |}]) s).

Definition cancel (id : nat) (l : list Timer) : list Timer :=
  filter (λ u, tid u ≠ id) l.

(** [clearInterval(timer)]; clearing [null] or an id that is no longer
    registered does nothing. *)
Definition clearInterval (s : State) : State :=
  match timer s with
  | Some id => set_timers (cancel id (timers s)) s
  | None => s
  end.

(** ** Card elements *)

Definition set_flipped (b : bool) (c : Card) : Card :=
  {| icon := icon c; flipped := b; matched := matched c |}.

Definition set_matched (b : bool) (c : Card) : Card :=
  {| icon := icon c; flipped := flipped c; matched := b |}.

(** [card.classList.add("flipped")], [.remove("flipped")] and
    [.add("matched")]. *)
Definition addFlipped (c : nat) (s : State) : State :=
  set_heap (alter (set_flipped true) c (heap s)) s.

Definition removeFlipped (c : nat) (s : State) : State :=
  set_heap (alter (set_flipped false) c (heap s)) s.

Definition addMatched (c : nat) (s : State) : State :=
  set_heap (alter (set_matched true) c (heap s)) s.

(** ** Utility functions *)

Definition startTimer (s : State) : State :=
  if gameStarted s then s
  else
    let s1 := set_gameStarted true s in
    set_timer (Some (nextId s1)) (setInterval Tick 1000 s1).

Definition resetTimer (s : State) : State :=
  set_gameStarted false (set_time 0 (set_timer None (clearInterval s))).

(** ** Game setup *)

(** One round of the [forEach] of [createBoard]: a new element with the
    icon, neither flipped nor matched, appended to the board. *)
Definition addCard (s : State) (ic : string) : State :=
  let c := length (heap s) in
  set_cards (cards s ++ [c])
    (set_heap (heap s ++ [{| icon := ic; flipped := false; matched := false |}]) s).

Definition createBoard (rnd : nat → Q) (s : State) : State :=
  let s1 := set_cards [] s in
  let s2 := set_flippedCards [] s1 in
  let s3 := set_matchedCount 0 s2 in
  let s4 := set_moves 0 s3 in
  let s5 := set_lockBoard false s4 in
  let s6 := resetTimer s5 in
  let s7 := set_winOverlay false s6 in
  let cardIcons := shuffle rnd (icons ++ icons) in
  fold_left addCard cardIcons s7.

(** ** Game logic *)

Definition resetTurn (s : State) : State :=
  set_lockBoard false (set_flippedCards [] s).

Definition endGame (s : State) : State :=
  set_winOverlay true
    (set_finalTime (Some (time s))
       (set_finalMoves (Some (moves s)) (clearInterval s))).

Definition handleMatch (card1 card2 : nat) (s : State) : State :=
  let s1 := addMatched card1 s in
  let s2 := addMatched card2 s1 in
  let s3 := set_matchedCount (matchedCount s2 + 2) s2 in
  let s4 := resetTurn s3 in
  if matchedCount s4 =? length (cards s4) then setTimeout EndGame 400 s4
  else s4.

Definition handleMismatch (card1 card2 : nat) (s : State) : State :=
  setTimeout (Revert card1 card2) 900 s.

Definition iconOf (s : State) (c : nat) : option string :=
  icon <$> heap s !! c.

(** [const [card1, card2] = flippedCards] takes the first two entries.
    With fewer than two, reading [dataset] of [undefined] throws and the
    handler stops there, the lock already set; [flipCard] only calls
    with exactly two. *)
Definition checkForMatch (s : State) : State :=
  let s1 := set_lockBoard true s in
  match flippedCards s1 with
  | card1 :: card2 :: _ =>
      if decide (iconOf s1 card1 = iconOf s1 card2)
      then handleMatch card1 card2 s1
      else handleMismatch card1 card2 s1
  | _ => s1
  end.

(** [card.classList.contains("flipped") || card.classList.contains("matched")];
    a reference always points at an element. *)
Definition faceUp (s : State) (c : nat) : bool :=
  match heap s !! c with
  | Some cd => flipped cd || matched cd
  | None => true
  end.

Definition flipCard (s : State) (card : nat) : State :=
  if lockBoard s then s
  else if faceUp s card then s
  else
    let s1 := startTimer s in
    let s2 := addFlipped card s1 in
    let s3 := set_flippedCards (flippedCards s2 ++ [card]) s2 in
    if length (flippedCards s3) =? 2
    then checkForMatch (set_moves (S (moves s3)) s3)
    else s3.

(** ** The event loop *)

(** The body of a registered callback. *)
Definition callback (t : Task) (s : State) : State :=
  match t with
  | Tick => set_time (S (time s)) s
  | Revert card1 card2 => resetTurn (removeFlipped card2 (removeFlipped card1 s))
  | EndGame => endGame s
  end.

Definition tick_down (t : Timer) : Timer :=
  {| tid := tid t; delay := pred (delay t); every := every t; task := task t |}.

Definition rearm (id ms : nat) (t : Timer) : Timer :=
  if decide (tid t = id)
  then {| tid := tid t; delay := ms; every := every t; task := task t |}
  else t.

Definition lookupTimer (id : nat) (s : State) : option Timer :=
  find (λ u, tid u =? id) (timers s).

(** The timer [id] has come due.  It runs unless a callback that ran
    before it in the same millisecond cancelled it.  A one-shot timer is
    removed, a repeating one is set for its next period. *)
Definition run_timer (s : State) (id : nat) : State :=
  match lookupTimer id s with
  | Some u =>
      let l := match every u with
               | Some ms => rearm id ms <$> timers s
               | None => cancel id (timers s)
               end in
      callback (task u) (set_timers l s)
  | None => s
  end.

Definition due (l : list Timer) : list nat :=
  tid <$> filter (λ t, delay t = 0) l.

(** One millisecond passes: the timers that come due run in the order in
    which they were registered. *)
Definition elapse1 (s : State) : State :=
  let s1 := set_timers (tick_down <$> timers s) s in
  fold_left run_timer (due (timers s1)) s1.

(** What happens to the page: the player clicks the card at a position
    of the board, clicks one of the two buttons that call [createBoard]
    (the shuffle then draws its random numbers), or time passes. *)
Inductive Event :=
| Click (i : nat)
| Restart (rnd : nat → Q)
| Wait (ms : nat).

Definition step (s : State) (e : Event) : State :=
  match e with
  | Click i =>
      match cards s !! i with
      | Some card => flipCard s card
      | None => s
      end
  | Restart rnd => createBoard rnd s
  | Wait ms => Nat.iter ms elapse1 s
  end.

Definition run (s : State) (evs : list Event) : State := fold_left step evs s.

(** The script runs to its end when the page loads. *)
Definition pageLoad (rnd : nat → Q) : State := createBoard rnd initial.

(** * Vocabulary of the properties *)

(** The icons shown on the board, position by position. *)
Definition boardIcons (s : State) : list (option string) :=
  iconOf s <$> cards s.

(** The state [createBoard] has reached when its [forEach] starts. *)
Definition clearBoard (s : State) : State :=
  set_winOverlay false (resetTimer (set_lockBoard false
    (set_moves 0 (set_matchedCount 0 (set_flippedCards [] (set_cards [] s)))))).

(** The state in which [checkForMatch] is called by [flipCard]: timer
    started, the second card flipped and pushed, the move counted. *)
Definition secondPick (s : State) (a card : nat) : State :=
  set_moves (S (moves s))
    (set_flippedCards [a; card] (addFlipped card (startTimer s))).

(** The three states of a tile, read off the two classes of its card
    element: a card with class ["matched"] shows as matched whether or not
    it also carries ["flipped"]. *)
Inductive Status := Hidden | Revealed | Matched.

#[global] Instance Status_eq_dec : EqDecision Status.
Proof. solve_decision. Defined.

Definition status (cd : Card) : Status :=
  if matched cd then Matched else if flipped cd then Revealed else Hidden.

Definition statusIn (h : list Card) (c : nat) : option Status :=
  status <$> h !! c.

Definition tileStatus (s : State) (c : nat) : option Status :=
  statusIn (heap s) c.

(** The tiles of the board that are face up without being matched. *)
Definition revealed (s : State) : list nat :=
  filter (λ c, tileStatus s c = Some Revealed) (cards s).

Definition matchedTiles (s : State) : list nat :=
  filter (λ c, tileStatus s c = Some Matched) (cards s).

Definition allMatched (s : State) : Prop :=
  ∀ c, c ∈ cards s → tileStatus s c = Some Matched.

(** The guard of [flipCard]. *)
Definition accepts (s : State) (card : nat) : bool :=
  negb (lockBoard s) && negb (faceUp s card).

(** The click makes [card] the second tile of a turn: [flipCard] accepts
    it with one card waiting, and calls [checkForMatch]. *)
Definition evaluates (s : State) (card : nat) : bool :=
  accepts s card && (length (flippedCards s) =? 1).

(** ** Reachable states *)

(** Every state the page can be in: the script has run, and then any
    events have happened. *)
Inductive reachable : State → Prop :=
| reach_load rnd : reachable (pageLoad rnd)
| reach_step s e : reachable s → reachable (step s e).

Definition isRestart (e : Event) : bool :=
  match e with Restart _ => true | _ => false end.

Definition inGame (evs : list Event) : Prop :=
  Forall (λ e, isRestart e = false) evs.

(** No deferred reversion and no deferred [endGame] is pending. *)
Definition settled (s : State) : Prop :=
  ∀ t, t ∈ timers s → task t = Tick.

(** The states of a game that began with no deferred callback of an
    earlier game pending: the first game of the page, or one restarted
    at a settled moment, followed by clicks and time. *)
Inductive playing : State → Prop :=
| play_load rnd : playing (pageLoad rnd)
| play_restart s rnd : reachable s → settled s → playing (createBoard rnd s)
| play_step s e : playing s → isRestart e = false → playing (step s e).

(** ** Invariants *)

(** The invariants are stated over the values of the variables they
    speak about. *)

(** The board, the turn and the match counter. *)
Record board_ok (h : list Card) (cs fc : list nat) (lock : bool) (mc : nat) :
    Prop := {
  board_valid : ∀ c, c ∈ cs → c < length h;
  board_nodup : NoDup cs;
  turn_on_board : ∀ c, c ∈ fc → c ∈ cs;
  turn_nodup : NoDup fc;
  turn_revealed : ∀ c, c ∈ fc → statusIn h c = Some Revealed;
  turn_size : length fc ≤ (if lock then 2 else 1);
  count_matched :
    mc = length (filter (λ c, statusIn h c = Some Matched) cs);
  board_size : length cs = 16
}.

Definition BoardInv (s : State) : Prop :=
  board_ok (heap s) (cards s) (flippedCards s) (lockBoard s) (matchedCount s).

(** The registered timers. *)
Record timers_ok (ts : list Timer) (next : nat) (tm : option nat)
    (started : bool) : Prop := {
  ids_fresh : ∀ t, t ∈ ts → tid t < next;
  ids_nodup : NoDup (tid <$> ts);
  timer_fresh : ∀ id, tm = Some id → id < next;
  tick_owned : ∀ t, t ∈ ts → task t = Tick →
    tm = Some (tid t) ∧ started = true;
  owned_tick : ∀ t, t ∈ ts → tm = Some (tid t) → task t = Tick;
  periods : ∀ t, t ∈ ts →
    every t = match task t with Tick => Some 1000 | _ => None end
}.

Definition TimerInv (s : State) : Prop :=
  timers_ok (timers s) (nextId s) (timer s) (gameStarted s).

(** Between two events no timer is overdue. *)
Definition rested (s : State) : Prop :=
  ∀ t, t ∈ timers s → 1 ≤ delay t.

Definition isRevert (t : Timer) : Prop :=
  match task t with Revert _ _ => True | _ => False end.

(** What holds in addition while [playing]. *)
Record clean_ok (h : list Card) (cs fc : list nat) (lock : bool) (mc : nat)
    (ts : list Timer) (won : bool) (mv tm : nat) (fm ft : option nat) :
    Prop := {
  revealed_in_turn : ∀ c, c ∈ cs → statusIn h c = Some Revealed → c ∈ fc;
  revert_turn : ∀ t a b, t ∈ ts → task t = Revert a b →
    fc = [a; b] ∧ lock = true ∧ delay t ≤ 900;
  revert_unique : ∀ t u, t ∈ ts → u ∈ ts →
    isRevert t → isRevert u → tid t = tid u;
  lock_revert : lock = true → ∃ t, t ∈ ts ∧ isRevert t;
  endGame_matched : ∀ t, t ∈ ts → task t = EndGame → mc = length cs;
  won_matched : won = true →
    mc = length cs ∧ (∀ t, t ∈ ts → task t ≠ Tick) ∧
    fm = Some mv ∧ ft = Some tm;
  matched_won : mc = length cs →
    won = true ∨ ∃ t, t ∈ ts ∧ task t = EndGame ∧ delay t ≤ 400
}.

Definition CleanInv (s : State) : Prop :=
  clean_ok (heap s) (cards s) (flippedCards s) (lockBoard s) (matchedCount s)
    (timers s) (winOverlay s) (moves s) (time s) (finalMoves s) (finalTime s).

(** Everything that holds while [playing]. *)
Definition GameInv (s : State) : Prop :=
  BoardInv s ∧ TimerInv s ∧ CleanInv s.

(** During one millisecond: the overdue timers are among those still to
    run. *)
Definition pendingDue (s : State) (l : list nat) : Prop :=
  ∀ t, t ∈ timers s → delay t = 0 → tid t ∈ l.

(** The cards and what the game has recorded about them. *)
Definition board (s : State) :=
  (heap s, cards s, flippedCards s, lockBoard s, matchedCount s, moves s).

(** What the deferred reversion of [handleMismatch] makes of it. *)
Definition reverted (a b : nat) (s : State) :=
  (alter (set_flipped false) b (alter (set_flipped false) a (heap s)),
   cards s, @nil nat, false, matchedCount s, moves s).

Definition noRevert (s : State) : Prop :=
  ∀ t, t ∈ timers s → ¬ isRevert t.

#[global] Instance Task_eq_dec : EqDecision Task.
Proof. solve_decision. Defined.

(** No [setInterval] timer is registered: the elapsed-time counter is
    stopped. *)
Definition noTick (s : State) : Prop :=
  ∀ t, t ∈ timers s → task t ≠ Tick.

(** [endGame] is due within [n] milliseconds, or has run. *)
Definition winWithin (s : State) (n : nat) : Prop :=
  winOverlay s = true ∨
  ∃ t, t ∈ timers s ∧ task t = EndGame ∧ delay t ≤ n.

(** What [createBoard] resets, apart from the cards themselves. *)
Definition session (s : State) :=
  (flippedCards s, matchedCount s, moves s, timer s, time s, gameStarted s,
   lockBoard s, winOverlay s, finalMoves s, finalTime s, nextId s, timers s).

(** The matched tiles of the board that show a given icon. *)
Definition matchedWith (s : State) (ic : string) : list nat :=
  filter (λ c, tileStatus s c = Some Matched ∧ iconOf s c = Some ic) (cards s).

(** The event resolves a match of the tiles [a] and [c]: it is the
    click on [c], hidden so far, while [a] is the revealed tile waiting
    for its partner; the two show the same icon, and after the event both
    are matched. *)
Definition resolvesMatch (s : State) (e : Event) (a c : nat) : Prop :=
  ∃ i, e = Click i ∧ cards s !! i = Some c ∧ a ∈ cards s ∧ a ≠ c ∧
    iconOf s a = iconOf s c ∧
    tileStatus s a = Some Revealed ∧ tileStatus s c = Some Hidden ∧
    tileStatus (step s e) a = Some Matched ∧
    tileStatus (step s e) c = Some Matched.

(** ** Concrete inputs *)

Definition rnd_zero : nat → Q := λ _, 0%Q.
Definition rnd_half : nat → Q := λ _, (1 # 2)%Q.

(** With [rnd_zero] the board shows star, bolt, moon, leaf, gem, fire,
    music, heart, and the same eight again: positions 0 and 1 differ,
    positions [i] and [i + 8] agree. *)

(** A mismatch, a restart 100 ms later, and a click on the new board
    100 ms after that. *)
Definition restart_in_cooldown : list Event :=
  [Click 0; Click 1; Wait 100; Restart rnd_zero; Wait 100; Click 0].

(** A mismatch, a restart 100 ms later, and a mismatch on the new board
    400 ms after that. *)
Definition mismatch_after_restart : list Event :=
  [Click 0; Click 1; Wait 100; Restart rnd_zero; Wait 400; Click 0; Click 1].

(** Seven pairs found at once, the eighth 700 ms after the first click. *)
Definition full_game : list Event :=
  [Click 0; Click 8; Click 1; Click 9; Click 2; Click 10; Click 3; Click 11;
   Click 4; Click 12; Click 5; Click 13; Click 6; Click 14;
   Wait 700; Click 7; Click 15].

(** * Properties *)

Create Rewrite HintDb fields.

(** ** Projections through the small steps *)

Ltac case_if :=
  match goal with
  | |- context [if ?b then _ else _] => destruct b eqn:?
  | |- context [match ?o with Some _ => _ | None => _ end] => destruct o eqn:?
  end.

Lemma startTimer_heap s : heap (startTimer s) = heap s.
Proof. unfold startTimer; by case_if. Qed.

Lemma startTimer_cards s : cards (startTimer s) = cards s.
Proof. unfold startTimer; by case_if. Qed.

Lemma startTimer_flippedCards s : flippedCards (startTimer s) = flippedCards s.
Proof. unfold startTimer; by case_if. Qed.

Lemma startTimer_matchedCount s : matchedCount (startTimer s) = matchedCount s.
Proof. unfold startTimer; by case_if. Qed.

Lemma startTimer_moves s : moves (startTimer s) = moves s.
Proof. unfold startTimer; by case_if. Qed.

Lemma startTimer_time s : time (startTimer s) = time s.
Proof. unfold startTimer; by case_if. Qed.

Lemma startTimer_lockBoard s : lockBoard (startTimer s) = lockBoard s.
Proof. unfold startTimer; by case_if. Qed.

Lemma startTimer_finalMoves s : finalMoves (startTimer s) = finalMoves s.
Proof. unfold startTimer; by case_if. Qed.

Lemma startTimer_finalTime s : finalTime (startTimer s) = finalTime s.
Proof. unfold startTimer; by case_if. Qed.

Lemma startTimer_winOverlay s : winOverlay (startTimer s) = winOverlay s.
Proof. unfold startTimer; by case_if. Qed.

Lemma clearInterval_heap s : heap (clearInterval s) = heap s.
Proof. unfold clearInterval; by case_if. Qed.

Lemma clearInterval_cards s : cards (clearInterval s) = cards s.
Proof. unfold clearInterval; by case_if. Qed.

Lemma clearInterval_flippedCards s : flippedCards (clearInterval s) = flippedCards s.
Proof. unfold clearInterval; by case_if. Qed.

Lemma clearInterval_matchedCount s : matchedCount (clearInterval s) = matchedCount s.
Proof. unfold clearInterval; by case_if. Qed.

Lemma clearInterval_moves s : moves (clearInterval s) = moves s.
Proof. unfold clearInterval; by case_if. Qed.

Lemma clearInterval_timer s : timer (clearInterval s) = timer s.
Proof. unfold clearInterval; by case_if. Qed.

Lemma clearInterval_time s : time (clearInterval s) = time s.
Proof. unfold clearInterval; by case_if. Qed.

Lemma clearInterval_gameStarted s : gameStarted (clearInterval s) = gameStarted s.
Proof. unfold clearInterval; by case_if. Qed.

Lemma clearInterval_lockBoard s : lockBoard (clearInterval s) = lockBoard s.
Proof. unfold clearInterval; by case_if. Qed.

Lemma clearInterval_finalMoves s : finalMoves (clearInterval s) = finalMoves s.
Proof. unfold clearInterval; by case_if. Qed.

Lemma clearInterval_finalTime s : finalTime (clearInterval s) = finalTime s.
Proof. unfold clearInterval; by case_if. Qed.

Lemma clearInterval_winOverlay s : winOverlay (clearInterval s) = winOverlay s.
Proof. unfold clearInterval; by case_if. Qed.

Lemma clearInterval_nextId s : nextId (clearInterval s) = nextId s.
Proof. unfold clearInterval; by case_if. Qed.

Lemma resetTimer_heap s : heap (resetTimer s) = heap s.
Proof. unfold resetTimer, clearInterval; by case_if. Qed.

Lemma resetTimer_cards s : cards (resetTimer s) = cards s.
Proof. unfold resetTimer, clearInterval; by case_if. Qed.

Lemma resetTimer_flippedCards s : flippedCards (resetTimer s) = flippedCards s.
Proof. unfold resetTimer, clearInterval; by case_if. Qed.

Lemma resetTimer_matchedCount s : matchedCount (resetTimer s) = matchedCount s.
Proof. unfold resetTimer, clearInterval; by case_if. Qed.

Lemma resetTimer_moves s : moves (resetTimer s) = moves s.
Proof. unfold resetTimer, clearInterval; by case_if. Qed.

Lemma resetTimer_lockBoard s : lockBoard (resetTimer s) = lockBoard s.
Proof. unfold resetTimer, clearInterval; by case_if. Qed.

Lemma resetTimer_finalMoves s : finalMoves (resetTimer s) = finalMoves s.
Proof. unfold resetTimer, clearInterval; by case_if. Qed.

Lemma resetTimer_finalTime s : finalTime (resetTimer s) = finalTime s.
Proof. unfold resetTimer, clearInterval; by case_if. Qed.

Lemma resetTimer_winOverlay s : winOverlay (resetTimer s) = winOverlay s.
Proof. unfold resetTimer, clearInterval; by case_if. Qed.

Lemma resetTimer_nextId s : nextId (resetTimer s) = nextId s.
Proof. unfold resetTimer, clearInterval; by case_if. Qed.

Lemma endGame_heap s : heap (endGame s) = heap s.
Proof. unfold endGame, clearInterval; by case_if. Qed.

Lemma endGame_cards s : cards (endGame s) = cards s.
Proof. unfold endGame, clearInterval; by case_if. Qed.

Lemma endGame_flippedCards s : flippedCards (endGame s) = flippedCards s.
Proof. unfold endGame, clearInterval; by case_if. Qed.

Lemma endGame_matchedCount s : matchedCount (endGame s) = matchedCount s.
Proof. unfold endGame, clearInterval; by case_if. Qed.

Lemma endGame_moves s : moves (endGame s) = moves s.
Proof. unfold endGame, clearInterval; by case_if. Qed.

Lemma endGame_timer s : timer (endGame s) = timer s.
Proof. unfold endGame, clearInterval; by case_if. Qed.

Lemma endGame_time s : time (endGame s) = time s.
Proof. unfold endGame, clearInterval; by case_if. Qed.

Lemma endGame_gameStarted s : gameStarted (endGame s) = gameStarted s.
Proof. unfold endGame, clearInterval; by case_if. Qed.

Lemma endGame_lockBoard s : lockBoard (endGame s) = lockBoard s.
Proof. unfold endGame, clearInterval; by case_if. Qed.

Lemma endGame_nextId s : nextId (endGame s) = nextId s.
Proof. unfold endGame, clearInterval; by case_if. Qed.

Lemma handleMatch_cards a b s : cards (handleMatch a b s) = cards s.
Proof. unfold handleMatch; by case_if. Qed.

Lemma handleMatch_moves a b s : moves (handleMatch a b s) = moves s.
Proof. unfold handleMatch; by case_if. Qed.

Lemma handleMatch_timer a b s : timer (handleMatch a b s) = timer s.
Proof. unfold handleMatch; by case_if. Qed.

Lemma handleMatch_time a b s : time (handleMatch a b s) = time s.
Proof. unfold handleMatch; by case_if. Qed.

Lemma handleMatch_gameStarted a b s : gameStarted (handleMatch a b s) = gameStarted s.
Proof. unfold handleMatch; by case_if. Qed.

Lemma handleMatch_finalMoves a b s : finalMoves (handleMatch a b s) = finalMoves s.
Proof. unfold handleMatch; by case_if. Qed.

Lemma handleMatch_finalTime a b s : finalTime (handleMatch a b s) = finalTime s.
Proof. unfold handleMatch; by case_if. Qed.

Lemma handleMatch_winOverlay a b s : winOverlay (handleMatch a b s) = winOverlay s.
Proof. unfold handleMatch; by case_if. Qed.

Lemma clearBoard_heap s : heap (clearBoard s) = heap s.
Proof. unfold clearBoard, resetTimer, clearInterval; cbn; by case_if. Qed.

Lemma clearBoard_finalMoves s : finalMoves (clearBoard s) = finalMoves s.
Proof. unfold clearBoard, resetTimer, clearInterval; by case_if. Qed.

Lemma clearBoard_finalTime s : finalTime (clearBoard s) = finalTime s.
Proof. unfold clearBoard, resetTimer, clearInterval; by case_if. Qed.

Lemma clearBoard_nextId s : nextId (clearBoard s) = nextId s.
Proof. unfold clearBoard, resetTimer, clearInterval; by case_if. Qed.

Lemma resetTimer_timer s : timer (resetTimer s) = None.
Proof. reflexivity. Qed.

Lemma resetTimer_time s : time (resetTimer s) = 0.
Proof. reflexivity. Qed.

Lemma resetTimer_gameStarted s : gameStarted (resetTimer s) = false.
Proof. reflexivity. Qed.

Lemma resetTimer_timers s : timers (resetTimer s) = timers (clearInterval s).
Proof. reflexivity. Qed.

Lemma endGame_timers s : timers (endGame s) = timers (clearInterval s).
Proof. reflexivity. Qed.

Lemma endGame_finalMoves s : finalMoves (endGame s) = Some (moves s).
Proof. reflexivity. Qed.

Lemma endGame_finalTime s : finalTime (endGame s) = Some (time s).
Proof. reflexivity. Qed.

Lemma endGame_winOverlay s : winOverlay (endGame s) = true.
Proof. reflexivity. Qed.

Lemma handleMatch_heap a b s :
  heap (handleMatch a b s) =
    alter (set_matched true) b (alter (set_matched true) a (heap s)).
Proof. unfold handleMatch; by case_if. Qed.

Lemma handleMatch_flippedCards a b s : flippedCards (handleMatch a b s) = [].
Proof. unfold handleMatch; by case_if. Qed.

Lemma handleMatch_matchedCount a b s :
  matchedCount (handleMatch a b s) = matchedCount s + 2.
Proof. unfold handleMatch; by case_if. Qed.

Lemma handleMatch_lockBoard a b s : lockBoard (handleMatch a b s) = false.
Proof. unfold handleMatch; by case_if. Qed.

Lemma clearBoard_timers s : timers (clearBoard s) = timers (clearInterval s).
Proof. unfold clearBoard, resetTimer, clearInterval; cbn; by case_if. Qed.

#[global]
Hint Rewrite startTimer_heap startTimer_cards startTimer_flippedCards
  startTimer_matchedCount startTimer_moves startTimer_time
  startTimer_lockBoard startTimer_finalMoves startTimer_finalTime
  startTimer_winOverlay clearInterval_heap clearInterval_cards
  clearInterval_flippedCards clearInterval_matchedCount clearInterval_moves
  clearInterval_timer clearInterval_time clearInterval_gameStarted
  clearInterval_lockBoard clearInterval_finalMoves clearInterval_finalTime
  clearInterval_winOverlay clearInterval_nextId resetTimer_heap
  resetTimer_cards resetTimer_flippedCards resetTimer_matchedCount
  resetTimer_moves resetTimer_lockBoard resetTimer_finalMoves
  resetTimer_finalTime resetTimer_winOverlay resetTimer_nextId endGame_heap
  endGame_cards endGame_flippedCards endGame_matchedCount endGame_moves
  endGame_timer endGame_time endGame_gameStarted endGame_lockBoard
  endGame_nextId handleMatch_cards handleMatch_moves handleMatch_timer
  handleMatch_time handleMatch_gameStarted handleMatch_finalMoves
  handleMatch_finalTime handleMatch_winOverlay clearBoard_heap
  clearBoard_finalMoves clearBoard_finalTime clearBoard_nextId
  resetTimer_timer resetTimer_time resetTimer_gameStarted resetTimer_timers
  endGame_timers endGame_finalMoves endGame_finalTime endGame_winOverlay
  handleMatch_heap handleMatch_flippedCards handleMatch_matchedCount
  handleMatch_lockBoard clearBoard_timers : fields.

Lemma clearBoard_cards s : cards (clearBoard s) = [].
Proof. unfold clearBoard, resetTimer, clearInterval. cbn. by case_if. Qed.

Lemma clearBoard_flippedCards s : flippedCards (clearBoard s) = [].
Proof. unfold clearBoard, resetTimer, clearInterval. cbn. by case_if. Qed.

Lemma clearBoard_matchedCount s : matchedCount (clearBoard s) = 0.
Proof. unfold clearBoard, resetTimer, clearInterval. cbn. by case_if. Qed.

Lemma clearBoard_moves s : moves (clearBoard s) = 0.
Proof. unfold clearBoard, resetTimer, clearInterval. cbn. by case_if. Qed.

Lemma clearBoard_lockBoard s : lockBoard (clearBoard s) = false.
Proof. unfold clearBoard, resetTimer, clearInterval. cbn. by case_if. Qed.

Lemma clearBoard_timer s : timer (clearBoard s) = None.
Proof. reflexivity. Qed.

Lemma clearBoard_time s : time (clearBoard s) = 0.
Proof. reflexivity. Qed.

Lemma clearBoard_gameStarted s : gameStarted (clearBoard s) = false.
Proof. reflexivity. Qed.

Lemma clearBoard_winOverlay s : winOverlay (clearBoard s) = false.
Proof. reflexivity. Qed.

#[global]
Hint Rewrite clearBoard_cards clearBoard_flippedCards clearBoard_matchedCount
  clearBoard_moves clearBoard_lockBoard clearBoard_timer clearBoard_time
  clearBoard_gameStarted clearBoard_winOverlay : fields.

Ltac fields := autorewrite with fields; cbn.

(** ** The shuffle is a permutation *)

Section ShuffleFacts.
Context {A : Type}.
Implicit Types array : list A.

Lemma swap_Permutation i j array : swap i j array ≡ₚ array.
Proof.
  unfold swap.
  destruct (array !! i) as [x|] eqn:Hi; [|done].
  destruct (array !! j) as [y|] eqn:Hj; [|done].
  by apply Permutation_insert_swap.
Qed.

Lemma shuffle_from_Permutation rnd k i array :
  shuffle_from rnd k i array ≡ₚ array.
Proof.
  revert k array. induction i as [|i IH]; intros k array; simpl; [done|].
  by rewrite IH, swap_Permutation.
Qed.

Lemma length_swap i j array : length (swap i j array) = length array.
Proof.
  unfold swap. destruct (array !! i), (array !! j); try done.
  by rewrite !length_insert.
Qed.

(** Inside the array the swap is the exchange of the two entries. *)
Lemma swap_lookup i j array x y :
  array !! i = Some x → array !! j = Some y →
  swap i j array !! i = Some y ∧ swap i j array !! j = Some x.
Proof.
  intros Hi Hj. unfold swap. rewrite Hi, Hj.
  pose proof (lookup_lt_Some _ _ _ Hi). pose proof (lookup_lt_Some _ _ _ Hj).
  split.
  - destruct (decide (i = j)) as [->|].
    + rewrite list_lookup_insert_eq by (by rewrite length_insert). congruence.
    + rewrite list_lookup_insert_ne by done. by rewrite list_lookup_insert_eq.
  - by rewrite list_lookup_insert_eq by (by rewrite length_insert).
Qed.
End ShuffleFacts.

(** The index the loop draws lies in [0, i]. *)
Lemma random_index_le r i : unit_interval r → random_index r i ≤ i.
Proof.
  intros [H0 H1]. unfold random_index.
  set (n := Z.of_nat (i + 1)).
  assert (0 < inject_Z n)%Q as Hn.
  { change (inject_Z 0 < inject_Z n)%Q. rewrite <- Zlt_Qlt. subst n. lia. }
  assert (Qfloor (r * inject_Z n) < n)%Z as Hlt.
  { rewrite Zlt_Qlt. eapply Qle_lt_trans; [apply Qfloor_le|].
    rewrite <- (Qmult_1_l (inject_Z n)) at 2.
    by apply Qmult_lt_compat_r. }
  assert (0 <= Qfloor (r * inject_Z n))%Z as Hge.
  { rewrite <- (Qfloor_Z 0). apply Qfloor_resp_le.
    apply Qmult_le_0_compat; [done|]. by apply Qlt_le_weak. }
  subst n. lia.
Qed.

Lemma filter_eq_absent (x : string) (l : list string) :
  x ∉ l → filter (λ y, y = x) l = [].
Proof.
  induction l as [|y l IH]; intros Hx; [done|].
  apply not_elem_of_cons in Hx as [Hne Hx].
  rewrite filter_cons_False by congruence. by apply IH.
Qed.

Lemma length_filter_eq_NoDup (x : string) (l : list string) :
  NoDup l → x ∈ l → length (filter (λ y, y = x) l) = 1.
Proof.
  induction 1 as [|y l Hy Hnd IH]; intros Hx; [by apply not_elem_of_nil in Hx|].
  destruct (decide (y = x)) as [->|Hne].
  - rewrite filter_cons_True by done. simpl. by rewrite filter_eq_absent.
  - rewrite filter_cons_False by done.
    apply elem_of_cons in Hx as [->|Hx]; [done|]. by apply IH.
Qed.

Lemma createBoard_cards_from (s : State) (l : list string) :
  cards (fold_left addCard l s) = cards s ++ seq (length (heap s)) (length l) ∧
  heap (fold_left addCard l s) =
    heap s ++ ((λ ic, {| icon := ic; flipped := false; matched := false |}) <$> l).
Proof.
  revert s. induction l as [|ic l IH]; intros s; simpl.
  - by rewrite !app_nil_r.
  - destruct (IH (addCard s ic)) as [-> ->]. simpl.
    rewrite length_app. simpl. rewrite Nat.add_1_r.
    by rewrite <- !app_assoc.
Qed.

Lemma pageLoad_unfold rnd : pageLoad rnd = createBoard rnd initial.
Proof. reflexivity. Qed.

Lemma step_Restart s rnd : step s (Restart rnd) = createBoard rnd s.
Proof. reflexivity. Qed.

Lemma createBoard_unfold rnd s :
  createBoard rnd s = fold_left addCard (shuffle rnd (icons ++ icons)) (clearBoard s).
Proof. reflexivity. Qed.

Lemma addCards_board (s : State) (l : list string) :
  cards s = [] →
  let s' := fold_left addCard l s in
  cards s' = seq (length (heap s)) (length l) ∧
  heap s' = heap s ++
    ((λ ic, {| icon := ic; flipped := false; matched := false |}) <$> l) ∧
  boardIcons s' = Some <$> l.
Proof.
  intros Hnil s'. destruct (createBoard_cards_from s l) as [Hc Hh].
  fold s' in Hc, Hh. rewrite Hnil, app_nil_l in Hc.
  split; [done|]. split; [done|].
  unfold boardIcons, iconOf. rewrite Hc. apply list_eq. intros i.
  rewrite !list_lookup_fmap.
  destruct (decide (i < length l)) as [Hi|Hi].
  - rewrite lookup_seq_lt by done. cbn. rewrite Hh.
    rewrite lookup_app_r by lia.
    replace (length (heap s) + i - length (heap s)) with i by lia.
    rewrite list_lookup_fmap. destruct (l !! i) eqn:E; [done|].
    apply lookup_ge_None in E. lia.
  - rewrite lookup_seq_ge by lia. cbn.
    rewrite (proj2 (lookup_ge_None l i)); [done|lia].
Qed.

Lemma createBoard_board rnd s :
  let s' := createBoard rnd s in
  let cardIcons := shuffle rnd (icons ++ icons) in
  cards s' = seq (length (heap s)) (length cardIcons) ∧
  heap s' = heap s ++
    ((λ ic, {| icon := ic; flipped := false; matched := false |}) <$> cardIcons) ∧
  boardIcons s' = Some <$> cardIcons.
Proof.
  intros s' cardIcons. subst s'. rewrite createBoard_unfold. fold cardIcons.
  clearbody cardIcons.
  rewrite <- (clearBoard_heap s). apply addCards_board, clearBoard_cards.
Qed.

(** C4. Whatever numbers in [0, 1) the random source returns, the shuffle
    only exchanges entries inside the array and returns a permutation of
    it.  For any alphabet without repetition the shuffled duplicated
    alphabet has length [2 * |alphabet|] and contains every symbol exactly
    twice; [createBoard] lays out exactly that shuffle of the eight icons,
    so its board has 16 cards and shows every icon on exactly two. *)
Theorem newGame_board_is_permutation (rnd : nat → Q) :
  (∀ k, unit_interval (rnd k)) →
  (∀ k i, random_index (rnd k) i ≤ i) ∧
  (∀ alphabet : list string, NoDup alphabet →
     let board := shuffle rnd (alphabet ++ alphabet) in
     board ≡ₚ alphabet ++ alphabet ∧
     length board = 2 * length alphabet ∧
     ∀ x, x ∈ alphabet → length (filter (λ y, y = x) board) = 2) ∧
  (∀ s, let s' := createBoard rnd s in
     boardIcons s' = Some <$> shuffle rnd (icons ++ icons) ∧
     boardIcons s' ≡ₚ Some <$> (icons ++ icons) ∧
     length (cards s') = 16 ∧
     ∀ ic, ic ∈ icons →
       length (filter (λ c, iconOf s' c = Some ic) (cards s')) = 2).
Proof.
  intros Hrnd.
  assert (∀ alphabet : list string, NoDup alphabet →
     let board := shuffle rnd (alphabet ++ alphabet) in
     board ≡ₚ alphabet ++ alphabet ∧
     length board = 2 * length alphabet ∧
     ∀ x, x ∈ alphabet → length (filter (λ y, y = x) board) = 2) as Hgen.
  { intros alphabet Hnd board.
    assert (board ≡ₚ alphabet ++ alphabet) as Hp
      by apply shuffle_from_Permutation.
    split; [done|]. split.
    - rewrite Hp, length_app. lia.
    - intros x Hx. rewrite Hp, filter_app, length_app.
      by rewrite length_filter_eq_NoDup. }
  split; [intros k i; apply random_index_le, Hrnd|]. split; [done|].
  intros s s'. destruct (createBoard_board rnd s) as (Hc & Hh & Hb).
  fold s' in Hc, Hh, Hb.
  assert (NoDup icons) as Hnd by (by apply (bool_decide_unpack _); vm_compute).
  destruct (Hgen icons Hnd) as (Hp & Hlen & Hcount).
  split; [done|]. split; [by rewrite Hb, Hp|]. split.
  { rewrite Hc, length_seq, Hlen. reflexivity. }
  intros ic Hic. specialize (Hcount ic Hic).
  rewrite <- Hcount.
  transitivity (length (filter (λ o, o = Some ic) (boardIcons s'))).
  { unfold boardIcons. generalize (cards s'). intros l.
    induction l as [|c l IH]; [done|]. rewrite fmap_cons, !filter_cons.
    destruct (decide (iconOf s' c = Some ic)); simpl; by rewrite IH. }
  rewrite Hb. generalize (shuffle rnd (icons ++ icons)). intros l.
  induction l as [|y l IH]; [done|]. rewrite fmap_cons, !filter_cons.
  destruct (decide (Some y = Some ic)), (decide (y = ic)); simpl;
    try congruence.
Qed.

Lemma newGame_board_is_permutation_witness :
  boardIcons (createBoard rnd_half initial) ≡ₚ Some <$> (icons ++ icons).
Proof.
  refine (proj1 (proj2 (proj2 (proj2
    (newGame_board_is_permutation rnd_half _)) initial))).
  intros k. split; [discriminate|reflexivity].
Defined.

(** ** Clicks *)

Lemma faceUp_status s c :
  faceUp s c = true ↔ tileStatus s c ≠ Some Hidden.
Proof.
  unfold faceUp, tileStatus, statusIn, status. destruct (heap s !! c) as [cd|]; cbn.
  - destruct (matched cd), (flipped cd); cbn; split; congruence.
  - split; congruence.
Qed.

Lemma lookup_alter_Some (f : Card → Card) (c c' : nat) (h : list Card) cd :
  alter f c h !! c' = Some cd ↔
  ∃ cd0, h !! c' = Some cd0 ∧ cd = if decide (c = c') then f cd0 else cd0.
Proof.
  rewrite list_lookup_alter. case_decide; subst.
  - rewrite fmap_Some. split; intros (cd0 & H1 & H2); eauto.
  - split; [eauto|]. by intros (cd0 & H1 & ->).
Qed.

Lemma checkForMatch_moves s : moves (checkForMatch s) = moves s.
Proof.
  unfold checkForMatch, handleMatch, handleMismatch. cbn.
  repeat case_if; try done.
  all: destruct (flippedCards s) as [|? [|? ?]]; cbn; repeat case_if; done.
Qed.

Lemma flipCard_ignored s card : accepts s card = false → flipCard s card = s.
Proof.
  unfold accepts, flipCard. destruct (lockBoard s); [done|].
  destruct (faceUp s card); [done|]. discriminate.
Qed.

(** The three outcomes of an accepted click. *)

Lemma iconOf_alter_flag (f : Card → Card) (c c' : nat) (h : list Card) :
  (∀ cd, icon (f cd) = icon cd) →
  icon <$> alter f c h !! c' = icon <$> h !! c'.
Proof.
  intros Hf. rewrite list_lookup_alter. case_decide; subst; [|done].
  destruct (h !! c'); cbn; by rewrite ?Hf.
Qed.

Lemma iconOf_secondPick s a card c :
  iconOf (set_lockBoard true (secondPick s a card)) c = iconOf s c.
Proof.
  unfold iconOf, secondPick, addFlipped. cbn.
  rewrite iconOf_alter_flag by done.
  by rewrite startTimer_heap.
Qed.

Lemma flipCard_outcomes s card :
  accepts s card = true →
  (length (flippedCards s) ≠ 1 ∧
   flipCard s card =
     set_flippedCards (flippedCards s ++ [card])
       (addFlipped card (startTimer s))) ∨
  (∃ a, flippedCards s = [a] ∧
     ((iconOf s a = iconOf s card ∧
       flipCard s card =
         handleMatch a card (set_lockBoard true (secondPick s a card))) ∨
      (iconOf s a ≠ iconOf s card ∧
       flipCard s card =
         handleMismatch a card (set_lockBoard true (secondPick s a card))))).
Proof.
  intros Hacc. unfold accepts in Hacc.
  apply andb_prop in Hacc as [Hl Hf]. apply negb_true_iff in Hl, Hf.
  pose proof (startTimer_flippedCards s) as Hfc.
  unfold flipCard. rewrite Hl, Hf. cbn. unfold addFlipped at 1 2. cbn.
  rewrite Hfc.
  destruct (decide (length (flippedCards s) = 1)) as [Hlen|Hlen].
  - right. destruct (flippedCards s) as [|a [|b l]] eqn:E; try done.
    exists a. split; [done|]. cbn.
    unfold checkForMatch. cbn.
    rewrite startTimer_moves.
    fold (secondPick s a card).
    case_decide as Hd; rewrite !iconOf_secondPick in Hd; [left|right]; done.
  - left. split; [done|]. rewrite length_app. cbn.
    destruct (length (flippedCards s) + 1 =? 2) eqn:E.
    + apply Nat.eqb_eq in E. lia.
    + done.
Qed.

Lemma flipCard_cases s card :
  accepts s card = true → length (flippedCards s) ≤ 1 →
  (flippedCards s = [] ∧
   flipCard s card = set_flippedCards [card] (addFlipped card (startTimer s))) ∨
  (∃ a, flippedCards s = [a] ∧
     ((iconOf s a = iconOf s card ∧
       flipCard s card =
         handleMatch a card (set_lockBoard true (secondPick s a card))) ∨
      (iconOf s a ≠ iconOf s card ∧
       flipCard s card =
         handleMismatch a card (set_lockBoard true (secondPick s a card))))).
Proof.
  intros Hacc Hlen.
  destruct (flipCard_outcomes s card Hacc) as [[Hne ->]|?]; [left|by right].
  destruct (flippedCards s) as [|a [|b l]]; cbn in *; try done; lia.
Qed.

(** ** The board invariant *)

Lemma status_set_flipped b cd :
  status (set_flipped b cd) =
    if matched cd then Matched else if b then Revealed else Hidden.
Proof. reflexivity. Qed.

Lemma status_set_matched cd : status (set_matched true cd) = Matched.
Proof. reflexivity. Qed.

Lemma status_alter (f : Card → Card) (c c' : nat) (h : list Card) :
  statusIn (alter f c h) c' =
    if decide (c = c') then status ∘ f <$> h !! c' else statusIn h c'.
Proof.
  unfold statusIn. rewrite list_lookup_alter. case_decide; subst; [|done].
  by destruct (h !! c').
Qed.

(** Flipping a card up or down never changes which cards are matched. *)
Lemma matched_alter_flipped b (c c' : nat) (h : list Card) :
  statusIn (alter (set_flipped b) c h) c' = Some Matched ↔
  statusIn h c' = Some Matched.
Proof.
  rewrite status_alter. case_decide; subst; [|done].
  unfold statusIn. destruct (h !! c') as [cd|]; cbn; [|done].
  rewrite status_set_flipped. unfold status.
  destruct (matched cd), (flipped cd), b; split; congruence.
Qed.

Lemma matched_alter_matched (c c' : nat) (h : list Card) :
  c < length h →
  statusIn (alter (set_matched true) c h) c' = Some Matched ↔
  statusIn h c' = Some Matched ∨ c' = c.
Proof.
  intros Hc. rewrite status_alter. case_decide; subst.
  - destruct (lookup_lt_is_Some_2 h c' Hc) as [cd ->]. cbn. split; auto.
  - split; [auto|]. intros [?|?]; [done|congruence].
Qed.

Lemma filter_iff_in {A} (P Q : A → Prop)
    `{∀ x, Decision (P x)} `{∀ x, Decision (Q x)} (l : list A) :
  (∀ x, x ∈ l → P x ↔ Q x) → filter P l = filter Q l.
Proof.
  induction l as [|x l IH]; intros HPQ; [done|].
  rewrite !filter_cons.
  rewrite IH by (intros y Hy; apply HPQ; by right).
  destruct (decide (P x)) as [Hp|Hp].
  - rewrite decide_True; [done|]. apply HPQ; [by left|done].
  - rewrite decide_False; [done|]. rewrite <- HPQ; [done|by left].
Qed.

Lemma length_filter_add {A} (P P' : A → Prop)
    `{∀ x, Decision (P x)} `{∀ x, Decision (P' x)} (l : list A) (a : A) :
  NoDup l → a ∈ l → ¬ P a → (∀ x, P' x ↔ P x ∨ x = a) →
  length (filter P' l) = S (length (filter P l)).
Proof.
  intros Hnd Ha Hna HP. induction Hnd as [|x l Hx Hnd IH].
  { by apply not_elem_of_nil in Ha. }
  apply elem_of_cons in Ha as [<-|Ha].
  - rewrite (filter_cons_True P') by (apply HP; auto).
    rewrite (filter_cons_False P) by done. cbn. f_equal.
    f_equal. apply filter_iff_in. intros y Hy.
    rewrite HP. split; [|auto]. intros [?| ->]; done.
  - rewrite (filter_cons P'), (filter_cons P).
    assert (x ≠ a) by (intros ->; done).
    destruct (decide (P x)) as [Hpx|Hpx].
    + rewrite decide_True by (apply HP; auto). cbn. by rewrite IH.
    + rewrite decide_False; [by apply IH|]. rewrite HP. intros [?|?]; done.
Qed.

Lemma accepts_hidden s c :
  accepts s c = true ↔ lockBoard s = false ∧ tileStatus s c = Some Hidden.
Proof.
  unfold accepts. rewrite andb_true_iff, !negb_true_iff.
  unfold faceUp, tileStatus, statusIn, status.
  destruct (heap s !! c) as [cd|]; cbn.
  - destruct (matched cd), (flipped cd); cbn; split; intros [? ?]; split;
      congruence.
  - split; intros [? ?]; congruence.
Qed.

Lemma revealed_alter_flipped (c : nat) (h : list Card) :
  statusIn h c = Some Hidden →
  statusIn (alter (set_flipped true) c h) c = Some Revealed.
Proof.
  rewrite status_alter, decide_True by done. unfold statusIn.
  destruct (h !! c) as [cd|]; cbn; [|done].
  rewrite status_set_flipped. unfold status.
  destruct (matched cd), (flipped cd); congruence.
Qed.

Ltac inv_fields :=
  unfold BoardInv, TimerInv, CleanInv, tileStatus, secondPick, addFlipped,
    handleMismatch, setTimeout, setInterval in *;
  cbn; repeat (progress autorewrite with fields; cbn).

Lemma BoardInv_flipCard s c :
  BoardInv s → c ∈ cards s → BoardInv (flipCard s c).
Proof.
  intros HI Hc.
  destruct (accepts s c) eqn:Hacc; [|by rewrite flipCard_ignored].
  pose proof Hacc as [Hl Hhid]%accepts_hidden.
  assert (∀ c', c' ∈ flippedCards s → c' ≠ c) as Hne.
  { intros c' Hc' ->. apply (turn_revealed _ _ _ _ _ HI) in Hc'.
    unfold tileStatus in Hhid. congruence. }
  pose proof (turn_size _ _ _ _ _ HI) as Hsz. rewrite Hl in Hsz.
  pose proof (board_valid _ _ _ _ _ HI c Hc) as Hlt.
  destruct (flipCard_cases s c Hacc Hsz)
    as [[Hfc ->]|(a & Hfc & [[Hic ->]|[Hic ->]])].
  - inv_fields. destruct HI. rewrite Hl. split.
    + intros c'. rewrite length_alter. auto.
    + done.
    + by intros c' ->%list_elem_of_singleton.
    + apply NoDup_singleton.
    + intros c' ->%list_elem_of_singleton. by apply revealed_alter_flipped.
    + done.
    + rewrite count_matched0. f_equal. apply filter_iff_in. intros c' _.
      symmetry. apply matched_alter_flipped.
    + done.
  - assert (a ∈ flippedCards s) as Ha by (rewrite Hfc; by left).
    pose proof (Hne a Ha) as Hac.
    pose proof (turn_on_board _ _ _ _ _ HI a Ha) as Hab.
    pose proof (turn_revealed _ _ _ _ _ HI a Ha) as Har.
    inv_fields. destruct HI. split.
    + intros c'. rewrite !length_alter. auto.
    + done.
    + by intros c' ?%not_elem_of_nil.
    + apply NoDup_nil_2.
    + by intros c' ?%not_elem_of_nil.
    + cbn; lia.
    + rewrite count_matched0, Nat.add_comm. cbn. symmetry.
      set (h1 := alter (set_flipped true) c (heap s)).
      set (h2 := alter (set_matched true) a h1).
      rewrite (length_filter_add (λ c0, statusIn h2 c0 = Some Matched) _
                 (cards s) c); [f_equal|done|done| |].
      * apply (length_filter_add _ _ (cards s) a); [done..| |].
        { rewrite Har. discriminate. }
        intros c'. rewrite <- (matched_alter_flipped true c c' (heap s)).
        apply matched_alter_matched. subst h1. rewrite length_alter. auto.
      * subst h2 h1. rewrite status_alter, decide_False by done.
        rewrite (revealed_alter_flipped c (heap s) Hhid). discriminate.
      * intros c'. apply matched_alter_matched.
        subst h2 h1. rewrite !length_alter. auto.
    + done.
  - assert (a ∈ flippedCards s) as Ha by (rewrite Hfc; by left).
    pose proof (Hne a Ha) as Hac.
    pose proof (turn_on_board _ _ _ _ _ HI a Ha) as Hab.
    pose proof (turn_revealed _ _ _ _ _ HI a Ha) as Har.
    inv_fields. destruct HI. split.
    + intros c'. rewrite !length_alter. auto.
    + done.
    + intros c' [->| ->%list_elem_of_singleton]%elem_of_cons; done.
    + apply NoDup_cons. split; [by intros ?%list_elem_of_singleton|].
      apply NoDup_singleton.
    + intros c' [->| ->%list_elem_of_singleton]%elem_of_cons.
      * by rewrite status_alter, decide_False.
      * by apply revealed_alter_flipped.
    + cbn; lia.
    + rewrite count_matched0. f_equal. apply filter_iff_in. intros c' _.
      symmetry. apply matched_alter_flipped.
    + done.
Qed.

(** ** The new board *)

Lemma addCards_flippedCards l s : flippedCards (fold_left addCard l s) = flippedCards s.
Proof. revert s; induction l as [|ic l IH]; intros s; [done|]. cbn. by rewrite IH. Qed.

Lemma addCards_matchedCount l s : matchedCount (fold_left addCard l s) = matchedCount s.
Proof. revert s; induction l as [|ic l IH]; intros s; [done|]. cbn. by rewrite IH. Qed.

Lemma addCards_moves l s : moves (fold_left addCard l s) = moves s.
Proof. revert s; induction l as [|ic l IH]; intros s; [done|]. cbn. by rewrite IH. Qed.

Lemma addCards_timer l s : timer (fold_left addCard l s) = timer s.
Proof. revert s; induction l as [|ic l IH]; intros s; [done|]. cbn. by rewrite IH. Qed.

Lemma addCards_time l s : time (fold_left addCard l s) = time s.
Proof. revert s; induction l as [|ic l IH]; intros s; [done|]. cbn. by rewrite IH. Qed.

Lemma addCards_gameStarted l s : gameStarted (fold_left addCard l s) = gameStarted s.
Proof. revert s; induction l as [|ic l IH]; intros s; [done|]. cbn. by rewrite IH. Qed.

Lemma addCards_lockBoard l s : lockBoard (fold_left addCard l s) = lockBoard s.
Proof. revert s; induction l as [|ic l IH]; intros s; [done|]. cbn. by rewrite IH. Qed.

Lemma addCards_finalMoves l s : finalMoves (fold_left addCard l s) = finalMoves s.
Proof. revert s; induction l as [|ic l IH]; intros s; [done|]. cbn. by rewrite IH. Qed.

Lemma addCards_finalTime l s : finalTime (fold_left addCard l s) = finalTime s.
Proof. revert s; induction l as [|ic l IH]; intros s; [done|]. cbn. by rewrite IH. Qed.

Lemma addCards_winOverlay l s : winOverlay (fold_left addCard l s) = winOverlay s.
Proof. revert s; induction l as [|ic l IH]; intros s; [done|]. cbn. by rewrite IH. Qed.

Lemma addCards_nextId l s : nextId (fold_left addCard l s) = nextId s.
Proof. revert s; induction l as [|ic l IH]; intros s; [done|]. cbn. by rewrite IH. Qed.

Lemma addCards_timers l s : timers (fold_left addCard l s) = timers s.
Proof. revert s; induction l as [|ic l IH]; intros s; [done|]. cbn. by rewrite IH. Qed.

Lemma createBoard_flippedCards rnd s : flippedCards (createBoard rnd s) = [].
Proof. rewrite createBoard_unfold, addCards_flippedCards. by autorewrite with fields. Qed.

Lemma createBoard_matchedCount rnd s : matchedCount (createBoard rnd s) = 0.
Proof. rewrite createBoard_unfold, addCards_matchedCount. by autorewrite with fields. Qed.

Lemma createBoard_moves rnd s : moves (createBoard rnd s) = 0.
Proof. rewrite createBoard_unfold, addCards_moves. by autorewrite with fields. Qed.

Lemma createBoard_timer rnd s : timer (createBoard rnd s) = None.
Proof. rewrite createBoard_unfold, addCards_timer. by autorewrite with fields. Qed.

Lemma createBoard_time rnd s : time (createBoard rnd s) = 0.
Proof. rewrite createBoard_unfold, addCards_time. by autorewrite with fields. Qed.

Lemma createBoard_gameStarted rnd s : gameStarted (createBoard rnd s) = false.
Proof. rewrite createBoard_unfold, addCards_gameStarted. by autorewrite with fields. Qed.

Lemma createBoard_lockBoard rnd s : lockBoard (createBoard rnd s) = false.
Proof. rewrite createBoard_unfold, addCards_lockBoard. by autorewrite with fields. Qed.

Lemma createBoard_finalMoves rnd s : finalMoves (createBoard rnd s) = finalMoves s.
Proof. rewrite createBoard_unfold, addCards_finalMoves. by autorewrite with fields. Qed.

Lemma createBoard_finalTime rnd s : finalTime (createBoard rnd s) = finalTime s.
Proof. rewrite createBoard_unfold, addCards_finalTime. by autorewrite with fields. Qed.

Lemma createBoard_winOverlay rnd s : winOverlay (createBoard rnd s) = false.
Proof. rewrite createBoard_unfold, addCards_winOverlay. by autorewrite with fields. Qed.

Lemma createBoard_nextId rnd s : nextId (createBoard rnd s) = nextId s.
Proof. rewrite createBoard_unfold, addCards_nextId. by autorewrite with fields. Qed.

Lemma createBoard_timers rnd s : timers (createBoard rnd s) = timers (clearInterval s).
Proof. rewrite createBoard_unfold, addCards_timers. by autorewrite with fields. Qed.

#[global]
Hint Rewrite createBoard_flippedCards createBoard_matchedCount
  createBoard_moves createBoard_timer createBoard_time
  createBoard_gameStarted createBoard_lockBoard createBoard_finalMoves
  createBoard_finalTime createBoard_winOverlay createBoard_nextId
  createBoard_timers : fields.

Lemma length_shuffle_from {A} rnd k i (array : list A) :
  length (shuffle_from rnd k i array) = length array.
Proof.
  revert k array. induction i as [|i IH]; intros k array; cbn; [done|].
  by rewrite IH, length_swap.
Qed.

Lemma length_cardIcons rnd : length (shuffle rnd (icons ++ icons)) = 16.
Proof. unfold shuffle. by rewrite length_shuffle_from. Qed.

Lemma createBoard_cards rnd s :
  cards (createBoard rnd s) = seq (length (heap s)) 16.
Proof.
  destruct (createBoard_board rnd s) as (-> & _). by rewrite length_cardIcons.
Qed.

Lemma createBoard_hidden rnd s c :
  c ∈ cards (createBoard rnd s) → tileStatus (createBoard rnd s) c = Some Hidden.
Proof.
  destruct (createBoard_board rnd s) as (Hc & Hh & _). rewrite Hc.
  intros [Hge Hlt]%elem_of_seq. unfold tileStatus, statusIn. rewrite Hh.
  rewrite lookup_app_r by done. rewrite list_lookup_fmap.
  destruct (lookup_lt_is_Some_2 (shuffle rnd (icons ++ icons))
              (c - length (heap s))) as [ic ->]; [lia|done].
Qed.

Lemma createBoard_length_heap rnd s :
  length (heap (createBoard rnd s)) = length (heap s) + 16.
Proof.
  destruct (createBoard_board rnd s) as (_ & -> & _).
  by rewrite length_app, length_fmap, length_cardIcons.
Qed.

Lemma filter_none {A} (P : A → Prop) `{∀ x, Decision (P x)} (l : list A) :
  (∀ x, x ∈ l → ¬ P x) → filter P l = [].
Proof.
  induction l as [|x l IH]; intros HP; [done|].
  rewrite filter_cons_False by (apply HP; by left).
  apply IH. intros y Hy. apply HP. by right.
Qed.

Lemma board_ok_fresh h n :
  (∀ c, c ∈ seq (length h) 16 → statusIn (h ++ n) c = Some Hidden) →
  length n = 16 →
  board_ok (h ++ n) (seq (length h) 16) [] false 0.
Proof.
  intros Hhid Hn. split.
  - intros c [_ Hlt]%elem_of_seq. rewrite length_app. lia.
  - apply NoDup_seq.
  - by intros c ?%not_elem_of_nil.
  - apply NoDup_nil_2.
  - by intros c ?%not_elem_of_nil.
  - cbn. lia.
  - rewrite filter_none; [done|]. intros c Hc. rewrite (Hhid c Hc). discriminate.
  - apply length_seq.
Qed.

Lemma createBoard_fresh_hidden rnd s c :
  c ∈ seq (length (heap s)) 16 →
  statusIn (heap s ++
    ((λ ic, {| icon := ic; flipped := false; matched := false |}) <$>
       shuffle rnd (icons ++ icons))) c = Some Hidden.
Proof.
  intros [Hge Hlt]%elem_of_seq. unfold statusIn.
  rewrite lookup_app_r by done. rewrite list_lookup_fmap.
  destruct (lookup_lt_is_Some_2 (shuffle rnd (icons ++ icons))
              (c - length (heap s))) as [ic ->]; [|done].
  rewrite length_cardIcons. lia.
Qed.

Lemma BoardInv_createBoard rnd s : BoardInv (createBoard rnd s).
Proof.
  unfold BoardInv.
  rewrite createBoard_flippedCards, createBoard_lockBoard,
    createBoard_matchedCount, createBoard_cards.
  destruct (createBoard_board rnd s) as (_ & Hh & _).
  rewrite Hh.
  apply board_ok_fresh; [apply createBoard_fresh_hidden|].
  rewrite length_fmap. apply length_cardIcons.
Qed.

(** ** Callbacks and the passing of time *)

Lemma fold_left_inv {A B} (P : A → Prop) (f : A → B → A) (l : list B) a :
  (∀ a b, P a → P (f a b)) → P a → P (fold_left f l a).
Proof. intros Hf. revert a. induction l; cbn; auto. Qed.

Lemma iter_inv {A} (P : A → Prop) (f : A → A) n a :
  (∀ a, P a → P (f a)) → P a → P (Nat.iter n f a).
Proof. intros Hf Ha. induction n; cbn; auto. Qed.

(** A property that does not depend on the registered timers and that
    every callback preserves holds after any wait. *)
Lemma elapse1_inv (P : State → Prop) :
  (∀ s l, P s → P (set_timers l s)) →
  (∀ s t, P s → P (callback t s)) →
  ∀ s, P s → P (elapse1 s).
Proof.
  intros Hset Hcb s Hs. unfold elapse1. apply fold_left_inv; [|by apply Hset].
  intros s' id Hs'. unfold run_timer. destruct (lookupTimer id s'); [|done].
  by apply Hcb, Hset.
Qed.

Lemma BoardInv_callback t s : BoardInv s → BoardInv (callback t s).
Proof.
  intros HI. destruct t as [|a b|]; cbn.
  - done.
  - unfold resetTurn, removeFlipped. inv_fields. destruct HI. split; try done.
    + intros c. rewrite !length_alter. auto.
    + by intros c ?%not_elem_of_nil.
    + apply NoDup_nil_2.
    + by intros c ?%not_elem_of_nil.
    + cbn. lia.
    + rewrite count_matched0. f_equal. apply filter_iff_in. intros c _.
      by rewrite !matched_alter_flipped.
  - by inv_fields.
Qed.

Lemma BoardInv_step s e : BoardInv s → BoardInv (step s e).
Proof.
  intros HI. destruct e as [i|rnd|ms].
  - cbn. destruct (cards s !! i) as [c|] eqn:Hc; [|done].
    apply BoardInv_flipCard; [done|]. by eapply list_elem_of_lookup_2.
  - apply BoardInv_createBoard.
  - cbn. apply iter_inv; [|done]. apply elapse1_inv; [done|].
    intros ??. apply BoardInv_callback.
Qed.

Lemma reachable_BoardInv s : reachable s → BoardInv s.
Proof.
  induction 1 as [rnd|s e Hs IH]; [|by apply BoardInv_step].
  rewrite pageLoad_unfold. apply BoardInv_createBoard.
Qed.

(** ** The match counter *)

Lemma callback_matchedCount t s : matchedCount (callback t s) = matchedCount s.
Proof. destruct t; cbn; by autorewrite with fields. Qed.

Lemma callback_moves t s : moves (callback t s) = moves s.
Proof. destruct t; cbn; by autorewrite with fields. Qed.

Lemma callback_cards t s : cards (callback t s) = cards s.
Proof. destruct t; cbn; by autorewrite with fields. Qed.

Lemma wait_matchedCount ms s :
  matchedCount (step s (Wait ms)) = matchedCount s.
Proof.
  cbn. apply (iter_inv (λ s', matchedCount s' = matchedCount s)); [|done].
  intros s' Hs'. rewrite <- Hs'.
  apply (elapse1_inv (λ s'', matchedCount s'' = matchedCount s')); try done.
  intros s'' t <-. apply callback_matchedCount.
Qed.

Lemma wait_moves ms s : moves (step s (Wait ms)) = moves s.
Proof.
  cbn. apply (iter_inv (λ s', moves s' = moves s)); [|done].
  intros s' Hs'. rewrite <- Hs'.
  apply (elapse1_inv (λ s'', moves s'' = moves s')); try done.
  intros s'' t <-. apply callback_moves.
Qed.

Lemma wait_cards ms s : cards (step s (Wait ms)) = cards s.
Proof.
  cbn. apply (iter_inv (λ s', cards s' = cards s)); [|done].
  intros s' Hs'. rewrite <- Hs'.
  apply (elapse1_inv (λ s'', cards s'' = cards s')); try done.
  intros s'' t <-. apply callback_cards.
Qed.

Lemma flipCard_matchedCount s c :
  length (flippedCards s) ≤ 1 →
  matchedCount (flipCard s c) = matchedCount s ∨
  matchedCount (flipCard s c) = matchedCount s + 2.
Proof.
  intros Hsz. destruct (accepts s c) eqn:Hacc;
    [|left; by rewrite flipCard_ignored].
  destruct (flipCard_cases s c Hacc Hsz)
    as [[Hfc ->]|(a & Hfc & [[Hic ->]|[Hic ->]])]; inv_fields; auto.
Qed.

Lemma step_matchedCount s e :
  BoardInv s →
  matchedCount (step s e) = matchedCount s ∨
  (matchedCount (step s e) = matchedCount s + 2 ∧ ∃ i, e = Click i) ∨
  (matchedCount (step s e) = 0 ∧ ∃ rnd, e = Restart rnd).
Proof.
  intros HI. destruct e as [i|rnd|ms].
  - cbn. destruct (cards s !! i) as [c|]; [|by left].
    destruct (accepts s c) eqn:Hacc; [|left; by rewrite flipCard_ignored].
    apply accepts_hidden in Hacc as [Hl _].
    pose proof (turn_size _ _ _ _ _ HI) as Hsz. rewrite Hl in Hsz.
    destruct (flipCard_matchedCount s c Hsz); eauto.
  - right. right. split; [|eauto].
    change (step s (Restart rnd)) with (createBoard rnd s).
    by rewrite createBoard_matchedCount.
  - left. apply wait_matchedCount.
Qed.

Lemma reachable_even s : reachable s → Nat.Even (matchedCount s).
Proof.
  induction 1 as [rnd|s e Hs IH].
  - exists 0. rewrite pageLoad_unfold. by rewrite createBoard_matchedCount.
  - destruct (step_matchedCount s e (reachable_BoardInv s Hs))
      as [->|[[-> _]|[-> _]]]; [done| |by exists 0].
    destruct IH as [k ->]. exists (S k). lia.
Qed.

(** ** Ignored clicks *)

(** C7. A click on a card is ignored, leaving the whole state as it was,
    when the board is locked and when the card is already revealed or
    matched; so is the click on a board position whose card is in that
    condition, and clicking the same card a second time changes nothing
    beyond what the first click did. *)
Theorem reveal_ignored (s : State) (card : nat) :
  (lockBoard s = true → flipCard s card = s) ∧
  (tileStatus s card = Some Revealed ∨ tileStatus s card = Some Matched →
   flipCard s card = s) ∧
  (∀ i, cards s !! i = Some card →
     lockBoard s = true ∨ tileStatus s card = Some Revealed ∨
       tileStatus s card = Some Matched →
     step s (Click i) = s) ∧
  flipCard (flipCard s card) card = flipCard s card.
Proof.
  assert (lockBoard s = true → flipCard s card = s) as Hlock.
  { intros H. apply flipCard_ignored. unfold accepts. by rewrite H. }
  assert (tileStatus s card = Some Revealed ∨ tileStatus s card = Some Matched →
          flipCard s card = s) as Hup.
  { intros H. apply flipCard_ignored. unfold accepts.
    assert (faceUp s card = true) as ->.
    { apply faceUp_status. destruct H as [-> | ->]; discriminate. }
    by rewrite andb_false_r. }
  split; [done|]. split; [done|]. split.
  { intros i Hi [H|H]; cbn; rewrite Hi; auto. }
  destruct (accepts s card) eqn:Hacc; [|by rewrite !(flipCard_ignored s card)].
  apply flipCard_ignored. unfold accepts.
  apply andb_false_iff. rewrite !negb_false_iff.
  pose proof Hacc as [Hl Hhid]%accepts_hidden. unfold tileStatus in Hhid.
  assert (card < length (heap s)) as Hlt.
  { apply lookup_lt_is_Some. unfold statusIn in Hhid.
    destruct (heap s !! card); [eauto|done]. }
  destruct (flipCard_outcomes s card Hacc)
    as [[Hne ->]|(a & Hfc & [[Hic ->]|[Hic ->]])].
  - right. apply faceUp_status. inv_fields.
    by rewrite revealed_alter_flipped.
  - right. apply faceUp_status. inv_fields.
    assert (card < length (alter (set_matched true) a
              (alter (set_flipped true) card (heap s)))) as Hlt'
      by (by rewrite !length_alter).
    rewrite (proj2 (matched_alter_matched card card _ Hlt')); [done|by right].
  - left. by inv_fields.
Qed.

Lemma reveal_ignored_witness :
  let s := run (pageLoad rnd_zero) [Click 0; Click 1] in
  lockBoard s = true ∧ flipCard s 2 = s.
Proof.
  split; [reflexivity|].
  apply (proj1 (reveal_ignored _ 2)). reflexivity.
Defined.

(** ** The move counter *)

Lemma flipCard_moves s card :
  moves (flipCard s card) =
    if evaluates s card then S (moves s) else moves s.
Proof.
  unfold evaluates. destruct (accepts s card) eqn:Hacc; cbn;
    [|by rewrite flipCard_ignored].
  destruct (flipCard_outcomes s card Hacc)
    as [[Hne ->]|(a & Hfc & [[Hic ->]|[Hic ->]])].
  - apply Nat.eqb_neq in Hne. rewrite Hne. by inv_fields.
  - rewrite Hfc. by inv_fields.
  - rewrite Hfc. by inv_fields.
Qed.

(** [moves++] sits on the path of [flipCard] that calls [checkForMatch];
    no other click and no callback touches the counter. *)
Lemma step_moves (s : State) :
  (∀ i, moves (step s (Click i)) =
     match cards s !! i with
     | Some card => if evaluates s card then S (moves s) else moves s
     | None => moves s
     end) ∧
  (∀ ms, moves (step s (Wait ms)) = moves s).
Proof.
  split; [|intros ms; apply wait_moves].
  intros i. cbn. destruct (cards s !! i); [apply flipCard_moves|done].
Qed.

(** ** Matched tiles *)

Lemma matched_alter_keeps (f : Card → Card) (c c' : nat) (h : list Card) :
  (∀ cd, matched cd = true → matched (f cd) = true) →
  statusIn h c = Some Matched → statusIn (alter f c' h) c = Some Matched.
Proof.
  intros Hf. rewrite status_alter. case_decide; subst; [|done].
  unfold statusIn. destruct (h !! c) as [cd|]; cbn; [|done].
  unfold status. destruct (matched cd) eqn:E.
  - by rewrite (Hf cd E).
  - destruct (flipped cd); discriminate.
Qed.

Lemma flipCard_matched_stays s card c :
  tileStatus s c = Some Matched → tileStatus (flipCard s card) c = Some Matched.
Proof.
  intros Hm. destruct (accepts s card) eqn:Hacc;
    [|by rewrite flipCard_ignored].
  destruct (flipCard_outcomes s card Hacc)
    as [[Hne ->]|(a & Hfc & [[Hic ->]|[Hic ->]])]; inv_fields.
  all: repeat apply matched_alter_keeps; try done.
  all: by intros [].
Qed.

Lemma callback_matched_stays t s c :
  tileStatus s c = Some Matched → tileStatus (callback t s) c = Some Matched.
Proof.
  intros Hm. destruct t; cbn; unfold resetTurn, removeFlipped; inv_fields;
    try done.
  repeat apply matched_alter_keeps; try done.
  all: by intros [].
Qed.

Lemma createBoard_heap_keeps rnd s c :
  c < length (heap s) → heap (createBoard rnd s) !! c = heap s !! c.
Proof.
  intros Hc. destruct (createBoard_board rnd s) as (_ & -> & _).
  by rewrite lookup_app_l.
Qed.

Lemma step_matched_stays s e c :
  tileStatus s c = Some Matched → tileStatus (step s e) c = Some Matched.
Proof.
  intros Hm. destruct e as [i|rnd|ms].
  - cbn. destruct (cards s !! i); [by apply flipCard_matched_stays|done].
  - change (step s (Restart rnd)) with (createBoard rnd s).
    unfold tileStatus, statusIn in Hm |- *.
    rewrite createBoard_heap_keeps; [done|].
    apply lookup_lt_is_Some. destruct (heap s !! c); [eauto|done].
  - cbn. apply iter_inv; [|done]. apply elapse1_inv; [done|].
    intros ??. apply callback_matched_stays.
Qed.

Lemma flipCard_cards s card : cards (flipCard s card) = cards s.
Proof.
  destruct (accepts s card) eqn:Hacc; [|by rewrite flipCard_ignored].
  destruct (flipCard_outcomes s card Hacc)
    as [[Hne ->]|(a & Hfc & [[Hic ->]|[Hic ->]])]; by inv_fields.
Qed.

Lemma step_cards s e : isRestart e = false → cards (step s e) = cards s.
Proof.
  destruct e as [i|rnd|ms]; intros He; [|done|apply wait_cards].
  cbn. destruct (cards s !! i); [apply flipCard_cards|done].
Qed.

Lemma run_cons s e evs : run s (e :: evs) = run (step s e) evs.
Proof. reflexivity. Qed.

Lemma run_app s evs evs' : run s (evs ++ evs') = run (run s evs) evs'.
Proof. apply fold_left_app. Qed.

Lemma run_cards s evs : inGame evs → cards (run s evs) = cards s.
Proof.
  intros Hevs. revert s. induction Hevs as [|e evs He _ IH]; intros s; [done|].
  by rewrite run_cons, IH, step_cards.
Qed.

(** C8. A tile that is matched stays matched, whatever happens next:
    no click, no callback and no restart takes the status away from the
    card.  As long as the game is not restarted the board also keeps its
    tiles, so a matched tile of the game never shows as hidden or
    revealed again. *)
Theorem matched_is_final (s : State) (c : nat) (evs : list Event) :
  tileStatus s c = Some Matched →
  tileStatus (run s evs) c = Some Matched ∧
  (inGame evs → cards (run s evs) = cards s).
Proof.
  intros Hm. split; [|apply run_cards].
  revert s Hm. induction evs as [|e evs IH]; intros s Hm; [done|].
  rewrite run_cons. by apply IH, step_matched_stays.
Qed.

Lemma matched_is_final_witness :
  let s := run (pageLoad rnd_zero) [Click 0; Click 8] in
  tileStatus s 0 = Some Matched ∧
  tileStatus (run s [Click 0; Wait 1000; Restart rnd_half]) 0 = Some Matched.
Proof.
  intros s. split; [by vm_compute|].
  apply (matched_is_final s 0). by vm_compute.
Defined.

(** ** The timer invariant *)

Lemma NoDup_tid_filter (P : Timer → Prop) `{∀ t, Decision (P t)} ts :
  NoDup (tid <$> ts) → NoDup (tid <$> filter P ts).
Proof.
  intros Hnd.
  assert (tid <$> filter P ts `sublist_of` tid <$> ts) as Hsub
    by apply fmap_sublist, sublist_filter.
  by eapply sublist_NoDup.
Qed.

Lemma elem_of_cancel id ts t : t ∈ cancel id ts ↔ tid t ≠ id ∧ t ∈ ts.
Proof. unfold cancel. by rewrite list_elem_of_filter. Qed.

(** Cancelling timers keeps the invariant. *)
Lemma timers_ok_filter (P : Timer → Prop) `{∀ t, Decision (P t)} ts n tm st :
  timers_ok ts n tm st → timers_ok (filter P ts) n tm st.
Proof.
  intros []. split; try done.
  - intros t [_ ?]%list_elem_of_filter. auto.
  - by apply NoDup_tid_filter.
  - intros t [_ ?]%list_elem_of_filter. auto.
  - intros t [_ ?]%list_elem_of_filter. auto.
  - intros t [_ ?]%list_elem_of_filter. auto.
Qed.

(** So does changing the delays. *)
Lemma timers_ok_fmap (f : Timer → Timer) ts n tm st :
  (∀ t, tid (f t) = tid t ∧ task (f t) = task t ∧ every (f t) = every t) →
  timers_ok ts n tm st → timers_ok (f <$> ts) n tm st.
Proof.
  intros Hf []. split; try done.
  - intros t' (t & -> & Ht)%list_elem_of_fmap.
    destruct (Hf t) as (-> & _). auto.
  - rewrite <- list_fmap_compose.
    erewrite list_fmap_ext; [done|]. intros i t _. cbn. apply Hf.
  - intros t' (t & -> & Ht)%list_elem_of_fmap.
    destruct (Hf t) as (-> & -> & _). auto.
  - intros t' (t & -> & Ht)%list_elem_of_fmap.
    destruct (Hf t) as (-> & -> & _). auto.
  - intros t' (t & -> & Ht)%list_elem_of_fmap.
    destruct (Hf t) as (_ & -> & ->). auto.
Qed.

Lemma tick_down_same t :
  tid (tick_down t) = tid t ∧ task (tick_down t) = task t ∧
  every (tick_down t) = every t.
Proof. done. Qed.

Lemma rearm_same id ms t :
  tid (rearm id ms t) = tid t ∧ task (rearm id ms t) = task t ∧
  every (rearm id ms t) = every t.
Proof. unfold rearm. by case_decide. Qed.

(** Registering a one-shot timer. *)
Lemma timers_ok_timeout ts n tm st k ms :
  k ≠ Tick →
  timers_ok ts n tm st →
  timers_ok (ts ++ [{| tid := n; delay := ms; every := None; task := k |}])
    (S n) tm st.
Proof.
  intros Hk []. split.
  - intros t [Ht| ->%list_elem_of_singleton]%elem_of_app; cbn; [|lia].
    specialize (ids_fresh0 t Ht). lia.
  - rewrite fmap_app. cbn. apply NoDup_app. split; [done|]. split.
    + intros id (t & -> & Ht)%list_elem_of_fmap Heq%list_elem_of_singleton.
      specialize (ids_fresh0 t Ht). lia.
    + apply NoDup_singleton.
  - intros id Hid. specialize (timer_fresh0 id Hid). lia.
  - intros t [Ht| ->%list_elem_of_singleton]%elem_of_app; cbn; [auto|done].
  - intros t [Ht| ->%list_elem_of_singleton]%elem_of_app; cbn; [auto|].
    intros Hid. specialize (timer_fresh0 n Hid). lia.
  - intros t [Ht| ->%list_elem_of_singleton]%elem_of_app; cbn; [auto|].
    by destruct k.
Qed.

Lemma TimerInv_startTimer s : TimerInv s → TimerInv (startTimer s).
Proof.
  unfold TimerInv, startTimer. destruct (gameStarted s) eqn:Hst.
  { by rewrite Hst. }
  cbn. intros []. split.
  - intros t [Ht| ->%list_elem_of_singleton]%elem_of_app; cbn; [|lia].
    specialize (ids_fresh0 t Ht). lia.
  - rewrite fmap_app. cbn. apply NoDup_app. split; [done|]. split.
    + intros id (t & -> & Ht)%list_elem_of_fmap Heq%list_elem_of_singleton.
      specialize (ids_fresh0 t Ht). lia.
    + apply NoDup_singleton.
  - intros id [= <-]. lia.
  - intros t [Ht| ->%list_elem_of_singleton]%elem_of_app; cbn; [|done].
    intros Hk. by destruct (tick_owned0 t Ht Hk).
  - intros t [Ht| ->%list_elem_of_singleton]%elem_of_app; cbn; [|done].
    intros [= Hid]. specialize (ids_fresh0 t Ht). lia.
  - intros t [Ht| ->%list_elem_of_singleton]%elem_of_app; cbn; [auto|done].
Qed.

Lemma TimerInv_clearInterval s : TimerInv s → TimerInv (clearInterval s).
Proof.
  unfold TimerInv, clearInterval. destruct (timer s) eqn:Htm.
  - cbn. rewrite Htm. apply timers_ok_filter.
  - by rewrite Htm.
Qed.

(** After [clearInterval(timer)] no [Tick] is registered. *)
Lemma clearInterval_no_tick s t :
  TimerInv s → t ∈ timers (clearInterval s) → task t ≠ Tick.
Proof.
  unfold TimerInv, clearInterval. intros [] Ht Hk.
  destruct (timer s) as [id|] eqn:Htm; cbn in Ht.
  - apply elem_of_cancel in Ht as [Hne Ht].
    destruct (tick_owned0 t Ht Hk) as [[= ->] _]. done.
  - by destruct (tick_owned0 t Ht Hk).
Qed.

Lemma TimerInv_resetTimer s : TimerInv s → TimerInv (resetTimer s).
Proof.
  intros HI. pose proof (TimerInv_clearInterval s HI) as HI'.
  pose proof (clearInterval_no_tick s) as Hno.
  unfold TimerInv in *. autorewrite with fields in *.
  destruct HI'. split; try done.
  - intros t Ht Hk. by destruct (Hno t HI Ht).
Qed.

Lemma TimerInv_endGame s : TimerInv s → TimerInv (endGame s).
Proof.
  intros HI. pose proof (TimerInv_clearInterval s HI) as HI'.
  unfold TimerInv in *. by autorewrite with fields in *.
Qed.

Lemma TimerInv_ext s s' :
  timers s' = timers s → nextId s' = nextId s → timer s' = timer s →
  gameStarted s' = gameStarted s → TimerInv s → TimerInv s'.
Proof. unfold TimerInv. by intros -> -> -> ->. Qed.

Lemma TimerInv_setTimeout k ms s :
  k ≠ Tick → TimerInv s → TimerInv (setTimeout k ms s).
Proof. intros Hk HI. unfold TimerInv, setTimeout. cbn. by apply timers_ok_timeout. Qed.

Lemma TimerInv_handleMatch a b s : TimerInv s → TimerInv (handleMatch a b s).
Proof.
  intros HI. unfold handleMatch. case_if.
  - by apply TimerInv_setTimeout.
  - done.
Qed.

Lemma TimerInv_flipCard s c : TimerInv s → TimerInv (flipCard s c).
Proof.
  intros HI. destruct (accepts s c) eqn:Hacc; [|by rewrite flipCard_ignored].
  pose proof (TimerInv_startTimer s HI) as HI'.
  destruct (flipCard_outcomes s c Hacc)
    as [[Hne ->]|(a & Hfc & [[Hic ->]|[Hic ->]])].
  - done.
  - by apply TimerInv_handleMatch.
  - by apply TimerInv_setTimeout.
Qed.

Lemma TimerInv_createBoard rnd s : TimerInv s → TimerInv (createBoard rnd s).
Proof.
  intros HI. pose proof (TimerInv_resetTimer s HI) as HI'.
  unfold TimerInv in HI' |- *.
  rewrite createBoard_timers, createBoard_nextId, createBoard_timer,
    createBoard_gameStarted.
  by autorewrite with fields in HI'.
Qed.

Lemma TimerInv_callback t s : TimerInv s → TimerInv (callback t s).
Proof. intros HI. destruct t; cbn; [done|done|by apply TimerInv_endGame]. Qed.

Lemma lookupTimer_Some id s u :
  lookupTimer id s = Some u → u ∈ timers s ∧ tid u = id.
Proof.
  unfold lookupTimer. intros [Hin Hid%Nat.eqb_eq]%find_some.
  by apply list_elem_of_In in Hin.
Qed.

Lemma TimerInv_run_timer s id : TimerInv s → TimerInv (run_timer s id).
Proof.
  intros HI. unfold run_timer. destruct (lookupTimer id s) as [u|]; [|done].
  apply TimerInv_callback. unfold TimerInv. cbn. destruct (every u).
  - apply timers_ok_fmap; [apply rearm_same|done].
  - by apply timers_ok_filter.
Qed.

Lemma TimerInv_elapse1 s : TimerInv s → TimerInv (elapse1 s).
Proof.
  intros HI. unfold elapse1. apply fold_left_inv.
  - intros ???. by apply TimerInv_run_timer.
  - unfold TimerInv. cbn. apply timers_ok_fmap; [apply tick_down_same|done].
Qed.

Lemma TimerInv_step s e : TimerInv s → TimerInv (step s e).
Proof.
  intros HI. destruct e as [i|rnd|ms].
  - cbn. destruct (cards s !! i); [by apply TimerInv_flipCard|done].
  - by apply TimerInv_createBoard.
  - cbn. apply iter_inv; [apply TimerInv_elapse1|done].
Qed.

Lemma TimerInv_initial : TimerInv initial.
Proof.
  split; cbn; try done; try apply NoDup_nil_2.
  all: by intros t ?%not_elem_of_nil.
Qed.

Lemma reachable_TimerInv s : reachable s → TimerInv s.
Proof.
  induction 1 as [rnd|s e Hs IH]; [|by apply TimerInv_step].
  rewrite pageLoad_unfold. apply TimerInv_createBoard, TimerInv_initial.
Qed.

(** ** Games that begin with no deferred callback pending *)

Lemma filter_all {A} (P : A → Prop) `{∀ x, Decision (P x)} (l : list A) :
  length (filter P l) = length l → ∀ x, x ∈ l → P x.
Proof.
  induction l as [|y l IH]; intros Hlen x Hx; [by apply not_elem_of_nil in Hx|].
  rewrite filter_cons in Hlen. pose proof (length_filter P l).
  destruct (decide (P y)); cbn in Hlen; [|lia].
  apply elem_of_cons in Hx as [->|Hx]; [done|]. apply IH; [lia|done].
Qed.

Lemma filter_all_length {A} (P : A → Prop) `{∀ x, Decision (P x)} (l : list A) :
  (∀ x, x ∈ l → P x) → length (filter P l) = length l.
Proof.
  induction l as [|y l IH]; intros HP; [done|].
  rewrite filter_cons_True by (apply HP; by left). cbn. f_equal.
  apply IH. intros x Hx. apply HP. by right.
Qed.

(** The counter has reached the size of the board exactly when every
    tile is matched. *)
Lemma count_full_iff s :
  BoardInv s → matchedCount s = length (cards s) ↔ allMatched s.
Proof.
  intros HI. rewrite (count_matched _ _ _ _ _ HI). split.
  - intros Hlen c Hc. by apply (filter_all _ _ Hlen c Hc).
  - intros Hall. by apply filter_all_length.
Qed.

Lemma hidden_not_full s c :
  BoardInv s → c ∈ cards s → tileStatus s c = Some Hidden →
  matchedCount s ≠ length (cards s).
Proof.
  intros HI Hc Hhid Hfull. apply (count_full_iff s HI) in Hfull.
  specialize (Hfull c Hc). congruence.
Qed.

Lemma startTimer_timers_old s t :
  t ∈ timers (startTimer s) → task t ≠ Tick → t ∈ timers s.
Proof.
  unfold startTimer. destruct (gameStarted s); [done|]. cbn.
  intros [Ht| ->%list_elem_of_singleton]%elem_of_app Hk; done.
Qed.

Lemma startTimer_timers_keep s t : t ∈ timers s → t ∈ timers (startTimer s).
Proof.
  unfold startTimer. destruct (gameStarted s); [done|]. cbn.
  intros Ht. apply elem_of_app. by left.
Qed.

Lemma handleMatch_timers a b s :
  timers (handleMatch a b s) =
    if matchedCount s + 2 =? length (cards s)
    then timers s ++
           [{| tid := nextId s; delay := 400; every := None; task := EndGame |}]
    else timers s.
Proof. unfold handleMatch. cbn. by case_if. Qed.

Lemma isRevert_task t : isRevert t ↔ ∃ a b, task t = Revert a b.
Proof.
  unfold isRevert. destruct (task t); split; try done; try by intros (?&?&?).
  eauto.
Qed.

Lemma status_alter_ne (f : Card → Card) (c c' : nat) (h : list Card) :
  c ≠ c' → statusIn (alter f c h) c' = statusIn h c'.
Proof. intros. by rewrite status_alter, decide_False. Qed.

Lemma CleanInv_flipCard s c :
  BoardInv s → CleanInv s → c ∈ cards s → CleanInv (flipCard s c).
Proof.
  intros HB HC Hc.
  destruct (accepts s c) eqn:Hacc; [|by rewrite flipCard_ignored].
  pose proof Hacc as [Hl Hhid]%accepts_hidden.
  pose proof (hidden_not_full s c HB Hc Hhid) as Hnf.
  pose proof (turn_size _ _ _ _ _ HB) as Hsz. rewrite Hl in Hsz.
  pose proof (board_valid _ _ _ _ _ HB c Hc) as Hlt.
  pose proof (startTimer_timers_old s) as Hold.
  pose proof (startTimer_timers_keep s) as Hkeep.
  assert (∀ t, t ∈ timers (startTimer s) → ¬ isRevert t) as Hnorev.
  { intros t Ht Hr. pose proof Hr as (a & b & Hk)%isRevert_task.
    assert (t ∈ timers s) as Ht' by (apply Hold; [done|congruence]).
    destruct (revert_turn _ _ _ _ _ _ _ _ _ _ _ HC t a b Ht' Hk) as (_ & ? & _).
    congruence. }
  assert (∀ t, t ∈ timers (startTimer s) → task t ≠ EndGame) as Hnoend.
  { intros t Ht Hk.
    assert (t ∈ timers s) as Ht' by (apply Hold; [done|congruence]).
    by pose proof (endGame_matched _ _ _ _ _ _ _ _ _ _ _ HC t Ht' Hk). }
  assert (winOverlay s = false) as Hwon.
  { destruct (winOverlay s) eqn:E; [|done].
    by destruct (won_matched _ _ _ _ _ _ _ _ _ _ _ HC E). }
  unfold tileStatus in Hhid.
  destruct (flipCard_cases s c Hacc Hsz)
    as [[Hfc ->]|(a & Hfc & [[Hic ->]|[Hic ->]])].
  - inv_fields. destruct HC. rewrite Hfc in *. split.
    + intros c' Hc' Hr. apply list_elem_of_singleton.
      destruct (decide (c' = c)) as [|Hne]; [done|].
      rewrite status_alter_ne in Hr by done.
      by apply revealed_in_turn0, not_elem_of_nil in Hr.
    + intros t a b Ht Hk. destruct (Hnorev t Ht). apply isRevert_task. eauto.
    + intros t u Ht _ Hr. by destruct (Hnorev t Ht).
    + congruence.
    + intros t Ht Hk. by destruct (Hnoend t Ht).
    + congruence.
    + done.
  - assert (a ∈ flippedCards s) as Ha by (rewrite Hfc; by left).
    pose proof (turn_on_board _ _ _ _ _ HB a Ha) as Hab.
    pose proof (board_valid _ _ _ _ _ HB a Hab) as Halt.
    unfold CleanInv in HC |- *. rewrite handleMatch_timers. inv_fields.
    destruct HC. rewrite Hfc in *.
    split.
    + intros c' Hc' Hr. exfalso.
      assert (c' < length (alter (set_matched true) a
                (alter (set_flipped true) c (heap s)))) as H1
        by (rewrite !length_alter; by apply (board_valid _ _ _ _ _ HB)).
      destruct (decide (c' = c)) as [->|Hne].
      { rewrite (proj2 (matched_alter_matched c c _ H1)) in Hr; [done|auto]. }
      rewrite status_alter_ne in Hr by done.
      destruct (decide (c' = a)) as [->|Hne'].
      { assert (a < length (alter (set_flipped true) c (heap s))) as H2
          by (by rewrite length_alter).
        rewrite (proj2 (matched_alter_matched a a _ H2)) in Hr; [done|auto]. }
      rewrite !status_alter_ne in Hr by done.
      apply revealed_in_turn0, list_elem_of_singleton in Hr; done.
    + intros t a' b' Ht Hk. exfalso.
      destruct (matchedCount s + 2 =? length (cards s)).
      * apply elem_of_app in Ht as [Ht|Ht%list_elem_of_singleton].
        -- destruct (Hnorev t Ht). apply isRevert_task. eauto.
        -- by subst t.
      * destruct (Hnorev t Ht). apply isRevert_task. eauto.
    + intros t u Ht _ Hr. exfalso.
      destruct (matchedCount s + 2 =? length (cards s)).
      * apply elem_of_app in Ht as [Ht|Ht%list_elem_of_singleton].
        -- by destruct (Hnorev t Ht).
        -- by subst t.
      * by destruct (Hnorev t Ht).
    + done.
    + intros t Ht Hk.
      destruct (matchedCount s + 2 =? length (cards s)) eqn:E.
      * by apply Nat.eqb_eq in E.
      * by destruct (Hnoend t Ht).
    + congruence.
    + intros Hfull. right. apply Nat.eqb_eq in Hfull. rewrite Hfull.
      eexists. split; [apply elem_of_app; right; by left|]. cbn. split; [done|lia].
  - assert (a ∈ flippedCards s) as Ha by (rewrite Hfc; by left).
    inv_fields. destruct HC. rewrite Hfc in *. split.
    + intros c' Hc' Hr. destruct (decide (c' = c)) as [->|Hne].
      { right. by left. }
      rewrite status_alter_ne in Hr by done.
      apply revealed_in_turn0, list_elem_of_singleton in Hr; [|done].
      subst. by left.
    + intros t a' b' [Ht|Ht%list_elem_of_singleton]%elem_of_app Hk.
      * destruct (Hnorev t Ht). apply isRevert_task. eauto.
      * subst t. cbn in Hk. injection Hk as <- <-. cbn. split; [done|].
        split; [done|lia].
    + intros t u [Ht|Ht%list_elem_of_singleton]%elem_of_app
        [Hu|Hu%list_elem_of_singleton]%elem_of_app Hrt Hru.
      * by destruct (Hnorev t Ht).
      * by destruct (Hnorev t Ht).
      * by destruct (Hnorev u Hu).
      * by subst.
    + intros _. eexists. split; [apply elem_of_app; right; by left|done].
    + intros t [Ht|Ht%list_elem_of_singleton]%elem_of_app Hk.
      * by destruct (Hnoend t Ht).
      * by subst t.
    + congruence.
    + done.
Qed.

Lemma unique_tid (ts : list Timer) t u :
  NoDup (tid <$> ts) → t ∈ ts → u ∈ ts → tid t = tid u → t = u.
Proof.
  intros Hnd [i Hi]%list_elem_of_lookup [j Hj]%list_elem_of_lookup Heq.
  assert (i = j) as ->; [|congruence].
  eapply (NoDup_lookup _ i j); [done| |].
  - by rewrite list_lookup_fmap, Hi.
  - by rewrite list_lookup_fmap, Hj, Heq.
Qed.

Lemma CleanInv_tick_down s :
  CleanInv s → CleanInv (set_timers (tick_down <$> timers s) s).
Proof.
  unfold CleanInv. cbn. intros []. split; try done.
  - intros t' a b (t & -> & Ht)%list_elem_of_fmap Hk. cbn in *.
    destruct (revert_turn0 t a b Ht Hk) as (? & ? & ?). repeat split; [done..|lia].
  - intros t' u' (t & -> & Ht)%list_elem_of_fmap
      (u & -> & Hu)%list_elem_of_fmap Hr Hr'.
    change (tid t = tid u). by apply revert_unique0.
  - intros Hl. destruct (lock_revert0 Hl) as (t & Ht & Hr).
    exists (tick_down t). split; [by apply list_elem_of_fmap_2|done].
  - intros t' (t & -> & Ht)%list_elem_of_fmap Hk.
    by apply (endGame_matched0 t).
  - intros Hw. destruct (won_matched0 Hw) as (? & Hno & ? & ?).
    repeat split; try done.
    intros t' (t & -> & Ht)%list_elem_of_fmap. by apply (Hno t).
  - intros Hf. destruct (matched_won0 Hf) as [?|(t & Ht & Hk & Hd)]; [by left|].
    right. exists (tick_down t). split; [by apply list_elem_of_fmap_2|].
    cbn. split; [done|lia].
Qed.

Lemma rearm_other (ts : list Timer) u ms t :
  NoDup (tid <$> ts) → u ∈ ts → t ∈ ts → task t ≠ task u →
  rearm (tid u) ms t = t.
Proof.
  intros Hnd Hu Ht Hk. unfold rearm. case_decide as Hid; [|done].
  by rewrite (unique_tid ts t u Hnd Ht Hu Hid) in Hk.
Qed.

Lemma CleanInv_run_timer s id :
  BoardInv s → TimerInv s → CleanInv s → CleanInv (run_timer s id).
Proof.
  intros HB HT HC. unfold run_timer.
  destruct (lookupTimer id s) as [u|] eqn:Hu; [|done].
  apply lookupTimer_Some in Hu as [Hu <-].
  pose proof (periods _ _ _ _ HT u Hu) as Hev.
  pose proof (ids_nodup _ _ _ _ HT) as Hnd.
  destruct (task u) as [|a b|] eqn:Hk; rewrite Hev; cbn.
  - (* the interval ticks *)
    unfold CleanInv in *. cbn. destruct HC.
    assert (∀ t', t' ∈ rearm (tid u) 1000 <$> timers s → task t' ≠ Tick →
                  t' ∈ timers s) as Hold.
    { intros t' (t & -> & Ht)%list_elem_of_fmap Hk'.
      destruct (rearm_same (tid u) 1000 t) as (_ & Hk'' & _).
      rewrite rearm_other with (ts := timers s); try done. congruence. }
    assert (∀ t, t ∈ timers s → task t ≠ Tick →
                 t ∈ rearm (tid u) 1000 <$> timers s) as Hkeep.
    { intros t Ht Hk'. apply list_elem_of_fmap. exists t. split; [|done].
      symmetry. apply rearm_other with (ts := timers s); try done. congruence. }
    split; try done.
    + intros t a b Ht Hk'. apply (revert_turn0 t a b); [|done].
      apply Hold; [done|congruence].
    + intros t t' Ht Ht' Hr Hr'.
      pose proof Hr as (?&?&?)%isRevert_task.
      pose proof Hr' as (?&?&?)%isRevert_task.
      apply revert_unique0; try done; apply Hold; try done; congruence.
    + intros Hl. destruct (lock_revert0 Hl) as (t & Ht & Hr).
      exists t. split; [|done]. apply Hkeep; [done|].
      apply isRevert_task in Hr as (?&?&?). congruence.
    + intros t Ht Hk'. apply (endGame_matched0 t); [|done].
      apply Hold; [done|congruence].
    + intros Hw. destruct (won_matched0 Hw) as (_ & Hno & _).
      by destruct (Hno u Hu).
    + intros Hf. destruct (matched_won0 Hf) as [?|(t & Ht & Hk' & Hd)]; [by left|].
      right. exists t. split; [|done]. apply Hkeep; [done|congruence].
  - (* the deferred reversion *)
    destruct (revert_turn _ _ _ _ _ _ _ _ _ _ _ HC u a b Hu Hk) as (Hfc & Hl & _).
    assert (∀ t, t ∈ cancel (tid u) (timers s) → ¬ isRevert t) as Hnorev.
    { intros t [Hne Ht]%elem_of_cancel Hr. apply Hne.
      apply (revert_unique _ _ _ _ _ _ _ _ _ _ _ HC); try done.
      apply isRevert_task. eauto. }
    assert (∀ t, t ∈ timers s → ¬ isRevert t → t ∈ cancel (tid u) (timers s))
      as Hkeep.
    { intros t Ht Hr. apply elem_of_cancel. split; [|done]. intros Hid.
      apply Hr. rewrite (unique_tid _ t u Hnd Ht Hu Hid).
      apply isRevert_task. eauto. }
    pose proof (turn_revealed _ _ _ _ _ HB) as Hrev. rewrite Hfc in Hrev.
    unfold resetTurn, removeFlipped, CleanInv in *. cbn. destruct HC.
    split; try done.
    + intros c Hc Hr. exfalso.
      assert (c ≠ a ∧ c ≠ b) as [Hca Hcb].
      { split; intros ->.
        - destruct (decide (b = a)) as [->|Hne].
          + rewrite status_alter, decide_True in Hr by done.
            unfold statusIn in *.
            rewrite list_lookup_alter_eq in Hr.
            destruct (heap s !! a) as [cd|]; cbn in Hr; [|done].
            rewrite status_set_flipped in Hr. unfold status in Hr. cbn in Hr.
            by destruct (matched cd).
          + rewrite status_alter_ne in Hr by done.
            rewrite status_alter, decide_True in Hr by done.
            destruct (heap s !! a) as [cd|]; cbn in Hr; [|done].
            rewrite status_set_flipped in Hr. by destruct (matched cd).
        - rewrite status_alter, decide_True in Hr by done.
          destruct (alter (set_flipped false) a (heap s) !! b) as [cd|];
            cbn in Hr; [|done].
          rewrite status_set_flipped in Hr. by destruct (matched cd). }
      rewrite !status_alter_ne in Hr by done.
      apply revealed_in_turn0 in Hr; [|done]. rewrite Hfc in Hr.
      apply elem_of_cons in Hr as [?|Hr%list_elem_of_singleton]; done.
    + intros t a' b' Ht Hk'. destruct (Hnorev t Ht). apply isRevert_task. eauto.
    + intros t t' Ht _ Hr. by destruct (Hnorev t Ht).
    + intros t [_ Ht]%elem_of_cancel. by apply endGame_matched0.
    + intros Hw. destruct (won_matched0 Hw) as (? & Hno & ? & ?).
      repeat split; try done. intros t [_ Ht]%elem_of_cancel. by apply Hno.
    + intros Hf. destruct (matched_won0 Hf) as [?|(t & Ht & Hk' & Hd)]; [by left|].
      right. exists t. split; [|done]. apply Hkeep; [done|].
      intros (?&?&?)%isRevert_task. congruence.
  - (* the deferred endGame *)
    pose proof (endGame_matched _ _ _ _ _ _ _ _ _ _ _ HC u Hu Hk) as Hfull.
    set (s1 := set_timers (cancel (tid u) (timers s)) s).
    assert (TimerInv s1) as HT1.
    { unfold TimerInv, s1. cbn. by apply timers_ok_filter. }
    pose proof (clearInterval_no_tick s1) as Hnotick.
    assert (∀ t, t ∈ timers (clearInterval s1) → t ∈ timers s) as Hold.
    { intros t. unfold clearInterval, s1. cbn. destruct (timer s); cbn.
      - by intros [_ [_ ?]%elem_of_cancel]%elem_of_cancel.
      - by intros [_ ?]%elem_of_cancel. }
    assert (∀ t, t ∈ timers s → isRevert t → t ∈ timers (clearInterval s1))
      as Hkeep.
    { intros t Ht Hr. apply isRevert_task in Hr as (a & b & Hr).
      assert (t ∈ cancel (tid u) (timers s)) as Ht1.
      { apply elem_of_cancel. split; [|done]. intros Hid.
        rewrite (unique_tid _ t u Hnd Ht Hu Hid) in Hr. congruence. }
      unfold clearInterval, s1. cbn. destruct (timer s) as [id|] eqn:Htm; cbn;
        [|done].
      apply elem_of_cancel. split; [|done]. intros <-.
      rewrite (owned_tick _ _ _ _ HT t Ht Htm) in Hr. done. }
    unfold CleanInv in *. autorewrite with fields. fold s1. cbn. subst s1.
    destruct HC. split; try done.
    + intros t a b Ht Hk'. apply (revert_turn0 t a b); auto.
    + intros t t' Ht Ht'. apply revert_unique0; auto.
    + intros Hl. destruct (lock_revert0 Hl) as (t & Ht & Hr).
      exists t. split; [by apply Hkeep|done].
    + intros _. repeat split; try done. intros t Ht. by apply Hnotick.
    + by left.
Qed.

(** ** No timer is ever overdue *)

Lemma lookupTimer_None id s t :
  lookupTimer id s = None → t ∈ timers s → tid t ≠ id.
Proof.
  unfold lookupTimer. intros Hnone Ht%list_elem_of_In Hid.
  pose proof (find_none _ _ Hnone t Ht) as Hf. cbn in Hf.
  apply Nat.eqb_neq in Hf. done.
Qed.

Lemma clearInterval_timers_sub s t :
  t ∈ timers (clearInterval s) → t ∈ timers s.
Proof.
  unfold clearInterval. destruct (timer s); cbn; [|done].
  by intros [_ ?]%elem_of_cancel.
Qed.

Lemma callback_timers_sub k s t :
  t ∈ timers (callback k s) → t ∈ timers s.
Proof.
  destruct k; [done|done|].
  change (callback EndGame s) with (endGame s). rewrite endGame_timers.
  apply clearInterval_timers_sub.
Qed.

Lemma pendingDue_run_timer s id l :
  TimerInv s → pendingDue s (id :: l) → pendingDue (run_timer s id) l.
Proof.
  intros HT Hp. unfold run_timer.
  destruct (lookupTimer id s) as [u|] eqn:Hu.
  - apply lookupTimer_Some in Hu as [Hu <-].
    pose proof (periods _ _ _ _ HT u Hu) as Hev.
    intros t Ht%callback_timers_sub Hd. cbn in Ht.
    destruct (every u) as [ms|] eqn:E.
    + apply list_elem_of_fmap in Ht as (t0 & -> & Ht0).
      unfold rearm in Hd |- *. case_decide as Hid.
      * cbn in Hd. destruct (task u); simplify_eq.
      * apply Hp in Hd; [|done].
        apply elem_of_cons in Hd as [?|?]; done.
    + apply elem_of_cancel in Ht as [Hne Ht].
      apply Hp in Hd; [|done]. apply elem_of_cons in Hd as [?|?]; done.
  - intros t Ht Hd. pose proof (lookupTimer_None id s t Hu Ht).
    apply Hp in Hd; [|done]. apply elem_of_cons in Hd as [?|?]; done.
Qed.

Lemma pendingDue_fold l s :
  TimerInv s → pendingDue s l → pendingDue (fold_left run_timer l s) [].
Proof.
  revert s. induction l as [|id l IH]; intros s HT Hp; [done|].
  cbn. apply IH; [by apply TimerInv_run_timer|by apply pendingDue_run_timer].
Qed.

Lemma TimerInv_tick_down s :
  TimerInv s → TimerInv (set_timers (tick_down <$> timers s) s).
Proof.
  intros HT. unfold TimerInv. cbn.
  apply timers_ok_fmap; [apply tick_down_same|done].
Qed.

Lemma rested_elapse1 s : TimerInv s → rested (elapse1 s).
Proof.
  intros HT. unfold elapse1.
  assert (pendingDue (fold_left run_timer
    (due (timers (set_timers (tick_down <$> timers s) s)))
    (set_timers (tick_down <$> timers s) s)) []) as Hp.
  { apply pendingDue_fold; [by apply TimerInv_tick_down|].
    intros t Ht Hd. unfold due. apply list_elem_of_fmap. exists t.
    split; [done|]. by apply list_elem_of_filter. }
  intros t Ht. destruct (delay t) eqn:E; [|lia].
  by apply Hp, not_elem_of_nil in E.
Qed.

Lemma rested_flipCard s c : rested s → rested (flipCard s c).
Proof.
  intros Hr. destruct (accepts s c) eqn:Hacc; [|by rewrite flipCard_ignored].
  assert (rested (startTimer s)) as Hr'.
  { unfold rested, startTimer. destruct (gameStarted s); [done|]. cbn.
    intros t [Ht| ->%list_elem_of_singleton]%elem_of_app; cbn; [auto|lia]. }
  destruct (flipCard_outcomes s c Hacc)
    as [[Hne ->]|(a & Hfc & [[Hic ->]|[Hic ->]])]; unfold rested.
  - done.
  - rewrite handleMatch_timers. inv_fields. case_if; [|done].
    intros t [Ht| ->%list_elem_of_singleton]%elem_of_app; cbn; [auto|lia].
  - inv_fields.
    intros t [Ht| ->%list_elem_of_singleton]%elem_of_app; cbn; [auto|lia].
Qed.

Lemma rested_createBoard rnd s : rested s → rested (createBoard rnd s).
Proof.
  intros Hr. unfold rested. rewrite createBoard_timers.
  intros t Ht%clearInterval_timers_sub. auto.
Qed.

Lemma rested_wait ms s : TimerInv s → rested s → rested (step s (Wait ms)).
Proof.
  intros HT Hr. cbn.
  enough (TimerInv (Nat.iter ms elapse1 s) ∧ rested (Nat.iter ms elapse1 s))
    by tauto.
  induction ms as [|ms [IH1 IH2]]; [done|]. cbn. split.
  - by apply TimerInv_elapse1.
  - by apply rested_elapse1.
Qed.

Lemma rested_step s e : TimerInv s → rested s → rested (step s e).
Proof.
  intros HT Hr. destruct e as [i|rnd|ms].
  - cbn. destruct (cards s !! i); [by apply rested_flipCard|done].
  - by apply rested_createBoard.
  - by apply rested_wait.
Qed.

Lemma reachable_rested s : reachable s → rested s.
Proof.
  induction 1 as [rnd|s e Hs IH].
  - rewrite pageLoad_unfold. apply rested_createBoard.
    by intros t ?%not_elem_of_nil.
  - apply rested_step; [by apply reachable_TimerInv|done].
Qed.

(** ** The invariant of a game *)

Lemma createBoard_hidden_in rnd s c :
  c ∈ cards (createBoard rnd s) →
  statusIn (heap (createBoard rnd s)) c = Some Hidden.
Proof.
  rewrite createBoard_cards.
  destruct (createBoard_board rnd s) as (_ & -> & _).
  apply createBoard_fresh_hidden.
Qed.

Lemma CleanInv_createBoard rnd s :
  TimerInv s → settled s → CleanInv (createBoard rnd s).
Proof.
  intros HT Hset.
  assert (∀ t, t ∈ timers (clearInterval s) → False) as Hnone.
  { intros t Ht. apply (clearInterval_no_tick s t HT Ht).
    by apply Hset, clearInterval_timers_sub. }
  pose proof (createBoard_hidden_in rnd s) as Hhid.
  unfold CleanInv.
  rewrite createBoard_flippedCards, createBoard_lockBoard,
    createBoard_matchedCount, createBoard_timers, createBoard_winOverlay,
    createBoard_moves, createBoard_time, createBoard_finalMoves,
    createBoard_finalTime.
  split; try done.
  - intros c Hc Hr. rewrite (Hhid c Hc) in Hr. done.
  - intros t a b Ht. by destruct (Hnone t).
  - intros t u Ht. by destruct (Hnone t).
  - intros t Ht. by destruct (Hnone t).
  - rewrite createBoard_cards, length_seq. done.
Qed.

Lemma GameInv_createBoard rnd s :
  TimerInv s → settled s → GameInv (createBoard rnd s).
Proof.
  intros HT Hset. split; [apply BoardInv_createBoard|]. split.
  - by apply TimerInv_createBoard.
  - by apply CleanInv_createBoard.
Qed.

Lemma GameInv_flipCard s c : GameInv s → c ∈ cards s → GameInv (flipCard s c).
Proof.
  intros (HB & HT & HC) Hc. split; [by apply BoardInv_flipCard|]. split.
  - by apply TimerInv_flipCard.
  - by apply CleanInv_flipCard.
Qed.

Lemma BoardInv_run_timer s id : BoardInv s → BoardInv (run_timer s id).
Proof.
  intros HB. unfold run_timer. destruct (lookupTimer id s); [|done].
  by apply BoardInv_callback.
Qed.

Lemma GameInv_run_timer s id : GameInv s → GameInv (run_timer s id).
Proof.
  intros (HB & HT & HC). split; [by apply BoardInv_run_timer|]. split.
  - by apply TimerInv_run_timer.
  - by apply CleanInv_run_timer.
Qed.

Lemma GameInv_tick_down s :
  GameInv s → GameInv (set_timers (tick_down <$> timers s) s).
Proof.
  intros (HB & HT & HC). split; [done|]. split.
  - by apply TimerInv_tick_down.
  - by apply CleanInv_tick_down.
Qed.

Lemma GameInv_elapse1 s : GameInv s → GameInv (elapse1 s).
Proof.
  intros HG. unfold elapse1. apply fold_left_inv.
  - intros ???. by apply GameInv_run_timer.
  - by apply GameInv_tick_down.
Qed.

Lemma GameInv_step s e : GameInv s → isRestart e = false → GameInv (step s e).
Proof.
  intros HG He. destruct e as [i|rnd|ms]; [|done|].
  - cbn. destruct (cards s !! i) as [c|] eqn:Hc; [|done].
    apply GameInv_flipCard; [done|]. by eapply list_elem_of_lookup_2.
  - cbn. apply iter_inv; [apply GameInv_elapse1|done].
Qed.

Lemma settled_initial : settled initial.
Proof. by intros t ?%not_elem_of_nil. Qed.

Lemma playing_reachable s : playing s → reachable s.
Proof.
  induction 1 as [rnd|s rnd Hs Hset|s e Hs IH He].
  - apply reach_load.
  - rewrite <- step_Restart. by apply reach_step.
  - by apply reach_step.
Qed.

Lemma playing_GameInv s : playing s → GameInv s.
Proof.
  induction 1 as [rnd|s rnd Hs Hset|s e Hs IH He].
  - rewrite pageLoad_unfold.
    apply GameInv_createBoard; [apply TimerInv_initial|apply settled_initial].
  - apply GameInv_createBoard; [by apply reachable_TimerInv|done].
  - by apply GameInv_step.
Qed.

(** ** At most two tiles revealed *)

Lemma reachable_run s evs : reachable s → reachable (run s evs).
Proof.
  revert s. induction evs as [|e evs IH]; intros s Hs; [done|].
  rewrite run_cons. by apply IH, reach_step.
Qed.

Lemma playing_run s evs : playing s → inGame evs → playing (run s evs).
Proof.
  intros Hs Hevs. revert s Hs.
  induction Hevs as [|e evs He _ IH]; intros s Hs; [done|].
  rewrite run_cons. by apply IH, play_step.
Qed.

Lemma revealed_le_turn s :
  BoardInv s → CleanInv s → length (revealed s) ≤ length (flippedCards s).
Proof.
  intros HB HC. apply submseteq_length, NoDup_submseteq.
  - apply NoDup_filter, (board_nodup _ _ _ _ _ HB).
  - intros c [Hr Hc]%list_elem_of_filter.
    by apply (revealed_in_turn _ _ _ _ _ _ _ _ _ _ _ HC).
Qed.

(** X1. In a game that began with no deferred callback pending, at most two
    tiles are revealed at any time, and while two are, the board is
    locked and every click is ignored. *)
Theorem playing_two_revealed (s : State) :
  playing s →
  length (revealed s) ≤ 2 ∧
  (length (revealed s) = 2 →
   lockBoard s = true ∧ ∀ i, step s (Click i) = s).
Proof.
  intros (HB & HT & HC)%playing_GameInv.
  pose proof (revealed_le_turn s HB HC) as Hle.
  pose proof (turn_size _ _ _ _ _ HB) as Hsz.
  split; [destruct (lockBoard s); lia|].
  intros H2. destruct (lockBoard s) eqn:Hl; [|lia]. split; [done|].
  intros i. cbn. destruct (cards s !! i); [|done].
  apply flipCard_ignored. unfold accepts. by rewrite Hl.
Qed.

Lemma playing_two_revealed_witness :
  length (revealed (run (pageLoad rnd_zero) [Click 0; Click 1])) ≤ 2.
Proof.
  refine (proj1 (playing_two_revealed _ _)).
  apply playing_run; [apply play_load|].
  repeat constructor.
Defined.

(** C1. A player who restarts during the cool-down of a mismatch and
    clicks on the new board reaches a state with three tiles revealed:
    the deferred reversion of the old game empties [flippedCards] while
    the first new tile is face up, and two more clicks are accepted. *)
Theorem three_tiles_revealed :
  let s := run (pageLoad rnd_zero)
             (restart_in_cooldown ++ [Wait 700; Click 1; Click 2]) in
  reachable s ∧ revealed s = [16; 17; 18] ∧ length (revealed s) = 3 ∧
  lockBoard s = true.
Proof.
  split; [|by vm_compute].
  apply reachable_run, reach_load.
Qed.

(** C2. The deferred reversion of a mismatch runs after a restart and
    writes to the new game: it empties [flippedCards] while the tile the
    player has just revealed stays face up, and it releases the lock that
    a mismatch of the new game has set. *)
Theorem stale_reversion_mutates_new_game :
  (let s := run (pageLoad rnd_zero) (restart_in_cooldown ++ [Wait 699]) in
   flippedCards s = [16] ∧ revealed s = [16] ∧
   timers s = [{| tid := 1; delay := 1; every := None; task := Revert 0 1 |};
               {| tid := 2; delay := 301; every := Some 1000; task := Tick |}] ∧
   flippedCards (step s (Wait 1)) = [] ∧ revealed (step s (Wait 1)) = [16]) ∧
  (let s := run (pageLoad rnd_zero) (mismatch_after_restart ++ [Wait 399]) in
   lockBoard s = true ∧ flippedCards s = [16; 17] ∧
   lockBoard (step s (Wait 1)) = false ∧
   flippedCards (step s (Wait 1)) = [] ∧
   revealed (step s (Wait 1)) = [16; 17]).
Proof. by vm_compute. Qed.

(** C6. After a restart during a cool-down, the lock set by a mismatch of
    the new game is held for 400 ms instead of 900: the reversion of the
    old game releases it, the two tiles stay revealed, and a third tile
    can be revealed. *)
Theorem lock_released_early :
  let s := run (pageLoad rnd_zero) mismatch_after_restart in
  lockBoard s = true ∧ revealed s = [16; 17] ∧
  (∃ t, t ∈ timers s ∧ task t = Revert 16 17 ∧ delay t = 900) ∧
  lockBoard (step s (Wait 399)) = true ∧
  lockBoard (step s (Wait 400)) = false ∧
  revealed (step s (Wait 400)) = [16; 17] ∧
  revealed (run s [Wait 400; Click 2]) = [16; 17; 18].
Proof.
  split; [by vm_compute|]. split; [by vm_compute|]. split.
  { exists {| tid := 3; delay := 900; every := None; task := Revert 16 17 |}.
    split; [|done]. apply list_elem_of_lookup. exists 2. by vm_compute. }
  by vm_compute.
Qed.

(** ** The match counter and the matched tiles *)

Lemma callback_matched_iff t s c :
  tileStatus (callback t s) c = Some Matched ↔ tileStatus s c = Some Matched.
Proof.
  destruct t; cbn; unfold resetTurn, removeFlipped; inv_fields; try done.
  by rewrite !matched_alter_flipped.
Qed.

Lemma wait_matched_iff ms s c :
  tileStatus (step s (Wait ms)) c = Some Matched ↔
  tileStatus s c = Some Matched.
Proof.
  cbn.
  apply (iter_inv (λ s', tileStatus s' c = Some Matched ↔
                         tileStatus s c = Some Matched)); [|done].
  intros s' <-.
  apply (elapse1_inv (λ s'', tileStatus s'' c = Some Matched ↔
                             tileStatus s' c = Some Matched)); try done.
  intros s'' t <-. apply callback_matched_iff.
Qed.

(** What a click does to the matched tiles: nothing, or it matches the
    waiting tile with the clicked one. *)
Lemma flipCard_matched_cases s c :
  BoardInv s → c ∈ cards s →
  (matchedCount (flipCard s c) = matchedCount s ∧
   ∀ x, tileStatus (flipCard s c) x = Some Matched ↔
        tileStatus s x = Some Matched) ∨
  (∃ a, flippedCards s = [a] ∧ a ∈ cards s ∧ a ≠ c ∧
     iconOf s a = iconOf s c ∧
     tileStatus s a = Some Revealed ∧ tileStatus s c = Some Hidden ∧
     matchedCount (flipCard s c) = matchedCount s + 2 ∧
     ∀ x, tileStatus (flipCard s c) x = Some Matched ↔
          tileStatus s x = Some Matched ∨ x = a ∨ x = c).
Proof.
  intros HI Hc.
  destruct (accepts s c) eqn:Hacc; [|left; by rewrite flipCard_ignored].
  pose proof Hacc as [Hl Hhid]%accepts_hidden.
  pose proof (turn_size _ _ _ _ _ HI) as Hsz. rewrite Hl in Hsz.
  pose proof (board_valid _ _ _ _ _ HI c Hc) as Hlt.
  destruct (flipCard_cases s c Hacc Hsz)
    as [[Hfc ->]|(a & Hfc & [[Hic ->]|[Hic ->]])].
  - left. inv_fields. split; [done|]. intros x. apply matched_alter_flipped.
  - right. exists a.
    assert (a ∈ flippedCards s) as Ha by (rewrite Hfc; by left).
    pose proof (turn_on_board _ _ _ _ _ HI a Ha) as Hab.
    pose proof (turn_revealed _ _ _ _ _ HI a Ha) as Har.
    pose proof (board_valid _ _ _ _ _ HI a Hab) as Hla.
    assert (a ≠ c) as Hac.
    { intros ->. unfold tileStatus in Hhid. congruence. }
    do 6 (split; [done|]). inv_fields. split; [done|]. intros x.
    rewrite matched_alter_matched by (by rewrite !length_alter).
    rewrite matched_alter_matched by (by rewrite !length_alter).
    rewrite matched_alter_flipped. tauto.
  - left. inv_fields. split; [done|]. intros x. apply matched_alter_flipped.
Qed.

Lemma step_matched_cases s e :
  BoardInv s → isRestart e = false →
  (matchedCount (step s e) = matchedCount s ∧
   ∀ x, tileStatus (step s e) x = Some Matched ↔
        tileStatus s x = Some Matched) ∨
  (∃ a c, resolvesMatch s e a c ∧ flippedCards s = [a] ∧
     matchedCount (step s e) = matchedCount s + 2 ∧
     ∀ x, tileStatus (step s e) x = Some Matched ↔
          tileStatus s x = Some Matched ∨ x = a ∨ x = c).
Proof.
  intros HI He. destruct e as [i|rnd|ms]; [|done|].
  - destruct (cards s !! i) as [c|] eqn:Hi; [|left; cbn; by rewrite Hi].
    assert (step s (Click i) = flipCard s c) as Hstep by (cbn; by rewrite Hi).
    rewrite Hstep.
    destruct (flipCard_matched_cases s c HI)
      as [?|(a & Hfc & Hab & Hac & Hic & Har & Hhid & Hmc & Hx)];
      [by eapply list_elem_of_lookup_2|by left|].
    right. exists a, c. split; [|done].
    exists i. rewrite Hstep. do 7 (split; [done|]).
    split; apply Hx; auto.
  - left. split; [apply wait_matchedCount|]. intros x. apply wait_matched_iff.
Qed.

Lemma run_matchedCount s evs :
  inGame evs → matchedCount s ≤ matchedCount (run s evs).
Proof.
  intros Hevs. revert s. induction Hevs as [|e evs He _ IH]; intros s; [done|].
  rewrite run_cons. etransitivity; [|apply IH].
  destruct e as [i|rnd|ms]; [|done|by rewrite wait_matchedCount].
  cbn. destruct (cards s !! i) as [c|]; [|done].
  destruct (accepts s c) eqn:Hacc; [|by rewrite flipCard_ignored].
  destruct (flipCard_outcomes s c Hacc)
    as [[Hne ->]|(a & Hfc & [[Hic ->]|[Hic ->]])]; inv_fields; lia.
Qed.

(** C10. In every reachable state [matchedCount] is the number of tiles
    of the board that are matched, and it is even.  [createBoard] sets it
    to 0.  Any other event either leaves the counter and the matched
    tiles as they are, or it resolves a match: it is the click on a
    hidden tile [c] that shows the icon of the waiting tile [a], both
    become matched, no other tile does, and the counter goes up by 2.
    Every match that resolves adds 2, and until the next restart the
    counter never goes down. *)
Theorem matchedCount_counts_matched (s : State) :
  reachable s →
  matchedCount s = length (matchedTiles s) ∧
  Nat.Even (matchedCount s) ∧
  (∀ rnd, matchedCount (createBoard rnd s) = 0) ∧
  (∀ e, let s' := step s e in
     (matchedCount s' = matchedCount s ∧
      (isRestart e = false →
       ∀ x, tileStatus s' x = Some Matched ↔ tileStatus s x = Some Matched)) ∨
     (matchedCount s' = matchedCount s + 2 ∧
      length (matchedTiles s') = length (matchedTiles s) + 2 ∧
      ∃ a c, resolvesMatch s e a c ∧ flippedCards s = [a] ∧
        ∀ x, tileStatus s' x = Some Matched ↔
             tileStatus s x = Some Matched ∨ x = a ∨ x = c) ∨
     (matchedCount s' = 0 ∧ ∃ rnd, e = Restart rnd)) ∧
  (∀ e a c, resolvesMatch s e a c →
     matchedCount (step s e) = matchedCount s + 2) ∧
  (∀ evs, inGame evs → matchedCount s ≤ matchedCount (run s evs)).
Proof.
  intros Hs. pose proof (reachable_BoardInv s Hs) as HI.
  assert (∀ s', BoardInv s' → matchedCount s' = length (matchedTiles s'))
    as Hcount by (intros s' HI'; apply (count_matched _ _ _ _ _ HI')).
  split; [by apply Hcount|].
  split; [by apply reachable_even|].
  split; [intros rnd; by rewrite createBoard_matchedCount|].
  split; [|split; [|intros evs; apply run_matchedCount]].
  - intros e s'. subst s'. destruct (isRestart e) eqn:He.
    { destruct e as [|rnd|]; try done. right. right.
      rewrite step_Restart, createBoard_matchedCount. eauto. }
    destruct (step_matched_cases s e HI He)
      as [[Hmc Hx]|(a & c & Hres & Hfc & Hmc & Hx)]; [by left|].
    right. left. split; [done|]. split; [|by exists a, c].
    pose proof (reachable_BoardInv _ (reach_step s e Hs)) as HI'.
    by rewrite <- (Hcount _ HI), <- (Hcount _ HI').
  - intros e a c Hres.
    assert (isRestart e = false) as He
      by (destruct Hres as (i & -> & _); done).
    destruct (step_matched_cases s e HI He)
      as [[_ Hx]|(_ & _ & _ & _ & Hmc & _)]; [|done].
    destruct Hres as (i & _ & _ & _ & _ & _ & _ & Hhid & _ & Hm).
    apply Hx in Hm. congruence.
Qed.

Lemma matchedCount_counts_matched_witness :
  let s := run (pageLoad rnd_zero) [Click 0; Click 8] in
  matchedCount s = 2 ∧ matchedCount s = length (matchedTiles s).
Proof.
  intros s. split; [reflexivity|].
  refine (proj1 (matchedCount_counts_matched s _)).
  apply reachable_run, reach_load.
Defined.

(** ** Restarting twice *)

Lemma clearInterval_None s : timer s = None → clearInterval s = s.
Proof. unfold clearInterval. by intros ->. Qed.

Lemma fmap_const {A B} (f : A → B) (l : list A) (v : B) :
  (∀ x, x ∈ l → f x = v) → f <$> l = replicate (length l) v.
Proof.
  induction l as [|x l IH]; intros Hf; [done|]. cbn.
  rewrite Hf by (by left). f_equal. apply IH. intros y Hy. apply Hf. by right.
Qed.

Lemma createBoard_statuses rnd s :
  tileStatus (createBoard rnd s) <$> cards (createBoard rnd s) =
    replicate 16 (Some Hidden).
Proof.
  rewrite (fmap_const _ _ (Some Hidden)) by apply createBoard_hidden.
  by rewrite createBoard_cards, length_seq.
Qed.

Lemma createBoard_noTick rnd s : TimerInv s → noTick (createBoard rnd s).
Proof.
  intros HT t. rewrite createBoard_timers. by apply clearInterval_no_tick.
Qed.

(** C9. [createBoard] run a second time leaves everything but the cards
    themselves exactly as the first run left it, and the new board has the
    same statuses as the old one: sixteen hidden tiles.  That state is the
    cleared one: no tile in the turn, lock released, [moves],
    [matchedCount] and [time] at 0, [timer] null, the game not started,
    the win overlay hidden; and in every state the page can reach, no
    interval is left ticking. *)
Theorem createBoard_twice (s : State) (rnd1 rnd2 : nat → Q) :
  let s1 := createBoard rnd1 s in
  let s2 := createBoard rnd2 s1 in
  session s2 = session s1 ∧
  tileStatus s2 <$> cards s2 = tileStatus s1 <$> cards s1 ∧
  tileStatus s1 <$> cards s1 = replicate 16 (Some Hidden) ∧
  flippedCards s1 = [] ∧ lockBoard s1 = false ∧ moves s1 = 0 ∧
  matchedCount s1 = 0 ∧ timer s1 = None ∧ gameStarted s1 = false ∧
  time s1 = 0 ∧ winOverlay s1 = false ∧
  (reachable s → noTick s1 ∧ noTick s2).
Proof.
  intros s1 s2. subst s1 s2.
  split.
  { unfold session. autorewrite with fields.
    rewrite (clearInterval_None (createBoard rnd1 s))
      by apply createBoard_timer.
    by autorewrite with fields. }
  split; [by rewrite !createBoard_statuses|].
  split; [apply createBoard_statuses|].
  autorewrite with fields. repeat (split; [done|]).
  intros HT%reachable_TimerInv. split.
  - by apply createBoard_noTick.
  - by apply createBoard_noTick, TimerInv_createBoard.
Qed.

Lemma createBoard_twice_witness :
  noTick (createBoard rnd_half (run (pageLoad rnd_zero) [Click 0; Wait 5])).
Proof.
  refine (proj1 (proj2 (proj2 (proj2 (proj2 (proj2 (proj2 (proj2 (proj2
    (proj2 (proj2 (proj2 (createBoard_twice _ rnd_half rnd_half)))))))))))
    _)).
  apply reachable_run, reach_load.
Defined.

(** ** The move counter and the tiles of the turn *)

(** C3. After a restart during the cool-down of a mismatch, the second
    tile the player reveals is not counted.  The deferred reversion of
    the old game has emptied [flippedCards] while the first tile of the
    new game is face up; the click that reveals a second tile beside it,
    with the same icon or with another one, is taken for the first of a
    turn: [moves] stays at 0, nothing is compared and the board stays
    unlocked.  The move is counted one click later, when a third tile is
    revealed. *)
Theorem second_reveal_not_counted :
  let s := run (pageLoad rnd_zero) (restart_in_cooldown ++ [Wait 700]) in
  reachable s ∧
  revealed s = [16] ∧ flippedCards s = [] ∧ lockBoard s = false ∧
  moves s = 0 ∧
  (let s' := step s (Click 8) in
   tileStatus s 24 = Some Hidden ∧ iconOf s 24 = iconOf s 16 ∧
   revealed s' = [16; 24] ∧ moves s' = 0 ∧ matchedTiles s' = [] ∧
   lockBoard s' = false ∧
   revealed (step s' (Click 1)) = [16; 17; 24] ∧
   moves (step s' (Click 1)) = 1) ∧
  (let s' := step s (Click 1) in
   tileStatus s 17 = Some Hidden ∧ iconOf s 17 ≠ iconOf s 16 ∧
   revealed s' = [16; 17] ∧ moves s' = 0 ∧ lockBoard s' = false).
Proof.
  split; [apply reachable_run, reach_load|]. by vm_compute.
Qed.

Lemma playing_revealed_turn s : playing s → revealed s ≡ₚ flippedCards s.
Proof.
  intros (HB & _ & HC)%playing_GameInv. apply NoDup_Permutation.
  - apply NoDup_filter, (board_nodup _ _ _ _ _ HB).
  - apply (turn_nodup _ _ _ _ _ HB).
  - intros c. unfold revealed. rewrite list_elem_of_filter. split.
    + intros [Hr Hc]. by apply (revealed_in_turn _ _ _ _ _ _ _ _ _ _ _ HC).
    + intros Hc. split.
      * apply (turn_revealed _ _ _ _ _ HB c Hc).
      * apply (turn_on_board _ _ _ _ _ HB c Hc).
Qed.

Lemma playing_one_unlocked s :
  playing s → length (flippedCards s) = 1 → lockBoard s = false.
Proof.
  intros (_ & _ & HC)%playing_GameInv Hlen.
  destruct (lockBoard s) eqn:Hl; [|done].
  destruct (lock_revert _ _ _ _ _ _ _ _ _ _ _ HC Hl) as (t & Ht & Hrev).
  unfold isRevert in Hrev. destruct (task t) as [|a b|] eqn:Htask; try done.
  destruct (revert_turn _ _ _ _ _ _ _ _ _ _ _ HC t a b Ht Htask) as (Hfc & _).
  rewrite Hfc in Hlen. done.
Qed.

Lemma flipCard_reveals s c :
  accepts s c = true → tileStatus (flipCard s c) c ≠ Some Hidden.
Proof.
  intros Hacc. pose proof Hacc as [Hl Hhid]%accepts_hidden.
  unfold tileStatus in Hhid.
  assert (c < length (heap s)) as Hlt.
  { apply lookup_lt_is_Some. unfold statusIn in Hhid.
    destruct (heap s !! c); [eauto|done]. }
  destruct (flipCard_outcomes s c Hacc)
    as [[Hne ->]|(a & Hfc & [[Hic ->]|[Hic ->]])]; inv_fields.
  - by rewrite revealed_alter_flipped.
  - assert (c < length (alter (set_matched true) a
              (alter (set_flipped true) c (heap s)))) as Hlt'
      by (by rewrite !length_alter).
    rewrite (proj2 (matched_alter_matched c c _ Hlt')); [done|by right].
  - by rewrite revealed_alter_flipped.
Qed.

(** X16. In a game that began with no deferred callback pending, the
    revealed tiles are exactly the tiles of the turn, and [moves] counts
    the second reveals: a click on a hidden tile while exactly one tile
    is revealed turns the tile face up and adds 1 to [moves], whatever
    the two icons are; no other click changes [moves], and neither does
    the passing of time. *)
Theorem moves_counts_second_reveals (s : State) (i : nat) :
  playing s →
  let s' := step s (Click i) in
  revealed s ≡ₚ flippedCards s ∧
  (∀ c, cards s !! i = Some c → tileStatus s c = Some Hidden →
     length (revealed s) = 1 →
     moves s' = S (moves s) ∧ tileStatus s' c ≠ Some Hidden) ∧
  (moves s' ≠ moves s →
     moves s' = S (moves s) ∧ length (revealed s) = 1 ∧
     ∃ c, cards s !! i = Some c ∧ tileStatus s c = Some Hidden) ∧
  (∀ ms, moves (step s (Wait ms)) = moves s).
Proof.
  intros Hs s'. subst s'.
  pose proof (playing_revealed_turn s Hs) as Hp.
  split; [done|]. split; [|split; [|intros ms; apply wait_moves]].
  - intros c Hi Hhid Hone. cbn. rewrite Hi.
    rewrite Hp in Hone.
    assert (accepts s c = true) as Hacc.
    { apply accepts_hidden. split; [by apply playing_one_unlocked|done]. }
    split; [|by apply flipCard_reveals].
    rewrite flipCard_moves. unfold evaluates. rewrite Hacc, Hone. done.
  - cbn. destruct (cards s !! i) as [c|]; [|done].
    rewrite flipCard_moves. unfold evaluates.
    destruct (accepts s c) eqn:Hacc; [|done].
    destruct (length (flippedCards s) =? 1) eqn:Hlen; [|done].
    intros _. apply Nat.eqb_eq in Hlen. split; [done|].
    split; [by rewrite Hp|].
    exists c. split; [done|]. by apply accepts_hidden in Hacc as [_ ?].
Qed.

Lemma moves_counts_second_reveals_witness :
  let s := step (pageLoad rnd_zero) (Click 0) in
  moves (step s (Click 1)) = S (moves s).
Proof.
  intros s.
  refine (proj1 (proj1 (proj2 (moves_counts_second_reveals s 1 _))
            1 _ _ _)); try reflexivity.
  apply play_step; [apply play_load|done].
Defined.

(** ** Winning *)

Lemma callback_winOverlay k s :
  winOverlay s = true → winOverlay (callback k s) = true.
Proof. destruct k; cbn; by autorewrite with fields. Qed.

Lemma run_timer_winOverlay s id :
  winOverlay s = true → winOverlay (run_timer s id) = true.
Proof.
  intros Hw. unfold run_timer. destruct (lookupTimer id s); [|done].
  by apply callback_winOverlay.
Qed.

Lemma fold_run_timer_winOverlay l s :
  winOverlay s = true → winOverlay (fold_left run_timer l s) = true.
Proof.
  intros Hw. apply (fold_left_inv (λ s', winOverlay s' = true)); [|done].
  intros ??. apply run_timer_winOverlay.
Qed.

Lemma wait_winOverlay ms s :
  winOverlay s = true → winOverlay (step s (Wait ms)) = true.
Proof.
  intros Hw. cbn. apply iter_inv; [|done].
  apply elapse1_inv; [done|]. intros ??. apply callback_winOverlay.
Qed.

Lemma flipCard_winOverlay s c : winOverlay (flipCard s c) = winOverlay s.
Proof.
  destruct (accepts s c) eqn:Hacc; [|by rewrite flipCard_ignored].
  destruct (flipCard_outcomes s c Hacc)
    as [[Hne ->]|(a & Hfc & [[Hic ->]|[Hic ->]])]; by inv_fields.
Qed.

(** A timer other than the one that runs stays registered, unless it is
    the interval and [endGame] clears it. *)
Lemma run_timer_keep s id t :
  TimerInv s → t ∈ timers s → task t ≠ Tick → tid t ≠ id →
  t ∈ timers (run_timer s id).
Proof.
  intros HT Ht Hk Hid. unfold run_timer.
  destruct (lookupTimer id s) as [u|] eqn:Hu; [|done].
  apply lookupTimer_Some in Hu as [Hu <-].
  assert (t ∈ match every u with
              | Some ms => rearm (tid u) ms <$> timers s
              | None => cancel (tid u) (timers s)
              end) as Ht'.
  { destruct (every u) as [ms|].
    - apply list_elem_of_fmap. exists t. split; [|done].
      unfold rearm. by rewrite decide_False.
    - by apply elem_of_cancel. }
  destruct (task u); [done|done|].
  change (callback EndGame ?x) with (endGame x). rewrite endGame_timers.
  unfold clearInterval. cbn. destruct (timer s) as [id|] eqn:Htm; cbn; [|done].
  apply elem_of_cancel. split; [|done]. intros <-.
  by apply Hk, (owned_tick _ _ _ _ HT).
Qed.

Lemma run_timer_fires s t :
  TimerInv s → t ∈ timers s → task t = EndGame →
  winOverlay (run_timer s (tid t)) = true.
Proof.
  intros HT Ht Hk. unfold run_timer.
  destruct (lookupTimer (tid t) s) as [u|] eqn:Hu.
  - apply lookupTimer_Some in Hu as [Hu Hid].
    rewrite (unique_tid _ u t (ids_nodup _ _ _ _ HT) Hu Ht Hid), Hk.
    reflexivity.
  - by destruct (lookupTimer_None _ _ t Hu Ht).
Qed.

Lemma fold_run_timer_fires l s t :
  TimerInv s → t ∈ timers s → task t = EndGame → tid t ∈ l →
  winOverlay (fold_left run_timer l s) = true.
Proof.
  revert s. induction l as [|id l IH]; intros s HT Ht Hk Hl.
  { by apply not_elem_of_nil in Hl. }
  cbn. destruct (decide (id = tid t)) as [->|Hne].
  - by apply fold_run_timer_winOverlay, run_timer_fires.
  - apply elem_of_cons in Hl as [?|Hl]; [done|].
    apply (IH _ (TimerInv_run_timer s id HT)); [|done..].
    apply run_timer_keep; try done. congruence.
Qed.

Lemma fold_run_timer_keep l s t :
  TimerInv s → t ∈ timers s → task t ≠ Tick → tid t ∉ l →
  t ∈ timers (fold_left run_timer l s).
Proof.
  revert s. induction l as [|id l IH]; intros s HT Ht Hk Hl; [done|].
  apply not_elem_of_cons in Hl as [Hne Hl]. cbn.
  apply (IH _ (TimerInv_run_timer s id HT)); [|done..].
  by apply run_timer_keep.
Qed.

Lemma not_due (ts : list Timer) t :
  NoDup (tid <$> ts) → t ∈ ts → delay t ≠ 0 → tid t ∉ due ts.
Proof.
  intros Hnd Ht Hd (u & Hid & [Hu0 Hu]%list_elem_of_filter)%list_elem_of_fmap.
  rewrite (unique_tid ts t u Hnd Ht Hu Hid) in Hd. done.
Qed.

Lemma winWithin_elapse1 s n :
  TimerInv s → rested s → winWithin s (S n) → winWithin (elapse1 s) n.
Proof.
  intros HT Hr [Hw|(t & Ht & Hk & Hd)].
  { left. unfold elapse1. by apply fold_run_timer_winOverlay. }
  pose proof (Hr t Ht) as Hd1.
  pose proof (TimerInv_tick_down s HT) as HT1.
  assert (tick_down t ∈ timers (set_timers (tick_down <$> timers s) s)) as Ht1
    by (by apply list_elem_of_fmap_2).
  unfold elapse1. destruct (decide (delay (tick_down t) = 0)) as [H0|H0].
  - left. apply fold_run_timer_fires with (tick_down t); try done.
    unfold due. apply list_elem_of_fmap. exists (tick_down t).
    split; [done|]. by apply list_elem_of_filter.
  - right. exists (tick_down t). split; [|split; [done|cbn; lia]].
    apply fold_run_timer_keep; try done.
    + cbn. congruence.
    + apply not_due; try done. apply (ids_nodup _ _ _ _ HT1).
Qed.

Lemma winWithin_wait n s :
  TimerInv s → rested s → winWithin s n →
  winOverlay (step s (Wait n)) = true.
Proof.
  cbn. revert s. induction n as [|n IH]; intros s HT Hr Hw.
  - destruct Hw as [?|(t & Ht & _ & Hd)]; [done|].
    specialize (Hr t Ht). lia.
  - rewrite Nat.iter_succ_r. apply IH.
    + by apply TimerInv_elapse1.
    + by apply rested_elapse1.
    + by apply winWithin_elapse1.
Qed.

(** Without an interval registered, [time] stands still. *)
Lemma noTick_run_timer s id :
  noTick s → noTick (run_timer s id) ∧ time (run_timer s id) = time s.
Proof.
  intros Hno. unfold run_timer.
  destruct (lookupTimer id s) as [u|] eqn:Hu; [|done].
  apply lookupTimer_Some in Hu as [Hu <-].
  assert (noTick (set_timers match every u with
              | Some ms => rearm (tid u) ms <$> timers s
              | None => cancel (tid u) (timers s)
              end s)) as Hno'.
  { intros t. cbn. destruct (every u) as [ms|].
    - intros (t0 & -> & Ht0)%list_elem_of_fmap.
      destruct (rearm_same (tid u) ms t0) as (_ & -> & _). by apply Hno.
    - intros [_ Ht]%elem_of_cancel. by apply Hno. }
  split.
  - intros t Ht%callback_timers_sub. by apply Hno'.
  - pose proof (Hno u Hu). destruct (task u); [done|done|].
    change (callback EndGame ?x) with (endGame x). by autorewrite with fields.
Qed.

Lemma noTick_wait ms s :
  noTick s → noTick (step s (Wait ms)) ∧ time (step s (Wait ms)) = time s.
Proof.
  intros Hno. cbn.
  apply (iter_inv (λ s', noTick s' ∧ time s' = time s)); [|done].
  intros s' [Hno' <-]. unfold elapse1.
  apply (fold_left_inv (λ s'', noTick s'' ∧ time s'' = time s')).
  - intros s'' id [Hno'' <-]. by apply noTick_run_timer.
  - split; [|done]. intros t. cbn.
    intros (t0 & -> & Ht0)%list_elem_of_fmap. by apply (Hno' t0).
Qed.

Lemma allMatched_click s i : allMatched s → step s (Click i) = s.
Proof.
  intros Hall. cbn. destruct (cards s !! i) as [c|] eqn:Hc; [|done].
  apply flipCard_ignored. apply not_true_is_false.
  intros [_ Hhid]%accepts_hidden.
  rewrite (Hall c) in Hhid; [done|]. by eapply list_elem_of_lookup_2.
Qed.

Lemma allMatched_step s e :
  allMatched s → isRestart e = false →
  allMatched (step s e) ∧ moves (step s e) = moves s.
Proof.
  intros Hall He. destruct e as [i|rnd|ms]; [|done|].
  - by rewrite allMatched_click.
  - split; [|apply wait_moves]. intros c. rewrite wait_cards. intros Hc.
    by apply step_matched_stays, Hall.
Qed.

Lemma allMatched_run s evs :
  allMatched s → inGame evs →
  allMatched (run s evs) ∧ moves (run s evs) = moves s.
Proof.
  intros Hall Hevs. revert s Hall.
  induction Hevs as [|e evs He _ IH]; intros s Hall; [done|].
  rewrite run_cons. destruct (allMatched_step s e Hall He) as [Hall' <-].
  by apply IH.
Qed.

Lemma won_step s e :
  playing s → winOverlay s = true → isRestart e = false →
  winOverlay (step s e) = true ∧ time (step s e) = time s.
Proof.
  intros (HB & HT & HC)%playing_GameInv Hw He.
  destruct (won_matched _ _ _ _ _ _ _ _ _ _ _ HC Hw) as (Hfull & Hno & _).
  destruct e as [i|rnd|ms]; [|done|].
  - rewrite allMatched_click; [done|]. by apply count_full_iff.
  - split; [by apply wait_winOverlay|]. by apply noTick_wait.
Qed.

Lemma won_run s evs :
  playing s → winOverlay s = true → inGame evs →
  winOverlay (run s evs) = true ∧ time (run s evs) = time s.
Proof.
  intros Hs Hw Hevs. revert s Hs Hw.
  induction Hevs as [|e evs He _ IH]; intros s Hs Hw; [done|].
  rewrite run_cons. destruct (won_step s e Hs Hw He) as [Hw' <-].
  apply IH; [by apply play_step|done].
Qed.

(** C5, as the code has it.  In a game that began with no deferred
    callback pending: the win overlay shows only when every tile is
    matched, which is exactly when [matchedCount] equals the size of the
    board; once every tile is matched, [moves] no longer changes and the
    overlay shows after at most 400 ms; and once it shows, no interval is
    registered, the two result fields hold [moves] and [time], and
    neither [moves] nor [time] changes until the game is restarted. *)
Theorem game_won (s : State) :
  playing s →
  (winOverlay s = true → allMatched s) ∧
  (allMatched s ↔ matchedCount s = length (cards s)) ∧
  (allMatched s → winOverlay (step s (Wait 400)) = true) ∧
  (allMatched s → ∀ evs, inGame evs →
     allMatched (run s evs) ∧ moves (run s evs) = moves s) ∧
  (winOverlay s = true →
     noTick s ∧ finalMoves s = Some (moves s) ∧ finalTime s = Some (time s) ∧
     ∀ evs, inGame evs →
       winOverlay (run s evs) = true ∧
       moves (run s evs) = moves s ∧ time (run s evs) = time s ∧
       finalMoves (run s evs) = Some (moves s) ∧
       finalTime (run s evs) = Some (time s)).
Proof.
  intros Hs. pose proof (playing_GameInv s Hs) as (HB & HT & HC).
  pose proof (count_full_iff s HB) as Hfull.
  assert (winOverlay s = true → allMatched s) as Hwon.
  { intros Hw. apply Hfull.
    by destruct (won_matched _ _ _ _ _ _ _ _ _ _ _ HC Hw). }
  split; [done|]. split; [done|]. split; [|split].
  - intros Hall%Hfull. apply winWithin_wait; [done| |].
    + by apply reachable_rested, playing_reachable.
    + by apply (matched_won _ _ _ _ _ _ _ _ _ _ _ HC).
  - intros Hall evs Hevs. by apply allMatched_run.
  - intros Hw.
    destruct (won_matched _ _ _ _ _ _ _ _ _ _ _ HC Hw) as (_ & Hno & Hfm & Hft).
    repeat (split; [done|]). intros evs Hevs.
    destruct (won_run s evs Hs Hw Hevs) as [Hw' Ht'].
    destruct (allMatched_run s evs (Hwon Hw) Hevs) as [_ Hm'].
    pose proof (playing_GameInv _ (playing_run s evs Hs Hevs)) as (_ & _ & HC').
    destruct (won_matched _ _ _ _ _ _ _ _ _ _ _ HC' Hw') as (_ & _ & Hfm' & Hft').
    rewrite Hfm', Hft', Hm', Ht'. done.
Qed.

Lemma game_won_witness :
  let s := run (pageLoad rnd_zero) full_game in
  matchedCount s = length (cards s) ∧ winOverlay (step s (Wait 400)) = true.
Proof.
  intros s. split; [by vm_compute|].
  assert (playing s) as Hs.
  { apply playing_run; [apply play_load|]. repeat constructor. }
  destruct (game_won s Hs) as (_ & Hiff & Hwin & _).
  apply Hwin, Hiff. by vm_compute.
Defined.

(** C5, as stated, fails: the 400 ms before [endGame] are counted.  In
    this game the last pair is found 700 ms after the first click with
    [time] at 0; the interval ticks 300 ms later, and [endGame] stops it
    at 1100 ms and reports one second. *)
Lemma delay_is_counted :
  let s := run (pageLoad rnd_zero) full_game in
  let s' := step s (Wait 400) in
  playing s ∧ matchedCount s = length (cards s) ∧
  tileStatus s <$> cards s = replicate 16 (Some Matched) ∧
  winOverlay s = false ∧ time s = 0 ∧ moves s = 8 ∧
  winOverlay s' = true ∧ moves s' = 8 ∧
  time s' = 1 ∧ finalTime s' = Some 1 ∧ time s' ≠ time s.
Proof.
  split.
  { apply playing_run; [apply play_load|]. repeat constructor. }
  by vm_compute.
Qed.

(** * Further properties of the engine *)

(** ** The turn *)

(** X2. In every state the page can reach, restarts and stale callbacks
    included, [flippedCards] holds at most two cards, at most one while
    the board is unlocked; they are distinct cards of the current board
    and each shows as revealed.  The board itself has sixteen distinct
    cards. *)
Theorem turn_well_formed (s : State) :
  reachable s →
  length (flippedCards s) ≤ 2 ∧
  (lockBoard s = false → length (flippedCards s) ≤ 1) ∧
  NoDup (flippedCards s) ∧
  (∀ c, c ∈ flippedCards s → c ∈ cards s ∧ tileStatus s c = Some Revealed) ∧
  NoDup (cards s) ∧ length (cards s) = 16 ∧
  (∀ c, c ∈ cards s → is_Some (heap s !! c)).
Proof.
  intros [] %reachable_BoardInv.
  split; [destruct (lockBoard s); lia|].
  split; [intros Hl; by rewrite Hl in turn_size0|].
  split; [done|].
  split; [intros c Hc; split; [by apply turn_on_board0|by apply turn_revealed0]|].
  split; [done|]. split; [done|].
  intros c Hc. by apply lookup_lt_is_Some, board_valid0.
Qed.

Lemma turn_well_formed_witness :
  length (flippedCards (run (pageLoad rnd_zero) restart_in_cooldown)) ≤ 2.
Proof.
  refine (proj1 (turn_well_formed _ _)). apply reachable_run, reach_load.
Defined.

(** ** The interval *)

Lemma startTimer_twice s : startTimer (startTimer s) = startTimer s.
Proof.
  unfold startTimer at 1.
  assert (gameStarted (startTimer s) = true) as ->; [|done].
  unfold startTimer. by destruct (gameStarted s) eqn:E.
Qed.

Lemma filter_same_key {A} (f : A → nat) (k : nat) (l : list A) :
  NoDup (f <$> l) → length (filter (λ x, f x = k) l) ≤ 1.
Proof.
  induction l as [|x l IH]; intros Hnd; [cbn; lia|].
  rewrite fmap_cons in Hnd. apply NoDup_cons in Hnd as [Hx Hnd].
  rewrite filter_cons. destruct (decide (f x = k)) as [Hk|Hk]; [|auto].
  cbn. rewrite filter_none; [cbn; lia|].
  intros y Hy Hyk. apply Hx. apply list_elem_of_fmap. exists y.
  split; [congruence|done].
Qed.

(** X3. [startTimer] starts the interval once: calling it again changes
    nothing, and in every reachable state at most one interval is
    registered.  A registered interval is the one [timer] holds, it
    exists only while [gameStarted] is set, and it fires every 1000 ms,
    next in at least 1 ms. *)
Theorem interval_started_once (s : State) :
  startTimer (startTimer s) = startTimer s ∧
  (reachable s →
   length (filter (λ t, task t = Tick) (timers s)) ≤ 1 ∧
   ∀ t, t ∈ timers s → task t = Tick →
     timer s = Some (tid t) ∧ gameStarted s = true ∧
     every t = Some 1000 ∧ 1 ≤ delay t).
Proof.
  split; [apply startTimer_twice|]. intros Hs.
  pose proof (reachable_TimerInv s Hs) as HT.
  pose proof (reachable_rested s Hs) as Hr. destruct HT. split.
  - destruct (timer s) as [id|] eqn:Htm.
    + etransitivity; [|apply (filter_same_key tid id (timers s) ids_nodup0)].
      apply submseteq_length, NoDup_submseteq.
      * apply NoDup_filter. by eapply NoDup_fmap_1.
      * intros t [Hk Ht]%list_elem_of_filter. apply list_elem_of_filter.
        split; [|done]. destruct (tick_owned0 t Ht Hk) as [[= ->] _]. done.
    + rewrite filter_none; [cbn; lia|]. intros t Ht Hk.
      by destruct (tick_owned0 t Ht Hk).
  - intros t Ht Hk. destruct (tick_owned0 t Ht Hk) as [-> ->].
    repeat split; [|by apply Hr]. by rewrite (periods0 t Ht), Hk.
Qed.

Lemma interval_started_once_witness :
  length (filter (λ t, task t = Tick)
            (timers (run (pageLoad rnd_zero) restart_in_cooldown))) ≤ 1.
Proof.
  refine (proj1 (proj2 (interval_started_once _) _)).
  apply reachable_run, reach_load.
Defined.

(** ** Icons *)

Lemma iconOf_ext s s' c : heap s' !! c = heap s !! c → iconOf s' c = iconOf s c.
Proof. unfold iconOf. by intros ->. Qed.

Lemma flipCard_iconOf s card c : iconOf (flipCard s card) c = iconOf s c.
Proof.
  destruct (accepts s card) eqn:Hacc; [|by rewrite flipCard_ignored].
  unfold iconOf.
  destruct (flipCard_outcomes s card Hacc)
    as [[Hne ->]|(a & Hfc & [[Hic ->]|[Hic ->]])]; inv_fields.
  all: by rewrite !iconOf_alter_flag.
Qed.

Lemma callback_iconOf k s c : iconOf (callback k s) c = iconOf s c.
Proof.
  unfold iconOf. destruct k; cbn; unfold resetTurn, removeFlipped;
    inv_fields; try done.
  by rewrite !iconOf_alter_flag.
Qed.

Lemma step_iconOf s e c :
  c < length (heap s) → iconOf (step s e) c = iconOf s c.
Proof.
  intros Hc. destruct e as [i|rnd|ms].
  - cbn. destruct (cards s !! i); [apply flipCard_iconOf|done].
  - rewrite step_Restart. by apply iconOf_ext, createBoard_heap_keeps.
  - cbn. apply (iter_inv (λ s', iconOf s' c = iconOf s c)); [|done].
    intros s' <-. apply (elapse1_inv (λ s'', iconOf s'' c = iconOf s' c));
      try done.
    intros s'' k <-. apply callback_iconOf.
Qed.

Lemma flipCard_length_heap s card :
  length (heap (flipCard s card)) = length (heap s).
Proof.
  destruct (accepts s card) eqn:Hacc; [|by rewrite flipCard_ignored].
  destruct (flipCard_outcomes s card Hacc)
    as [[Hne ->]|(a & Hfc & [[Hic ->]|[Hic ->]])]; inv_fields.
  all: by rewrite !length_alter.
Qed.

Lemma callback_length_heap k s :
  length (heap (callback k s)) = length (heap s).
Proof.
  destruct k; cbn; unfold resetTurn, removeFlipped; inv_fields; try done.
  by rewrite !length_alter.
Qed.

Lemma step_length_heap s e : length (heap s) ≤ length (heap (step s e)).
Proof.
  destruct e as [i|rnd|ms].
  - cbn. destruct (cards s !! i); [by rewrite flipCard_length_heap|done].
  - rewrite step_Restart, createBoard_length_heap. lia.
  - cbn. apply (iter_inv (λ s', length (heap s) ≤ length (heap s'))); [|done].
    intros s' Hs'. etransitivity; [done|].
    apply (elapse1_inv (λ s'', length (heap s') ≤ length (heap s''))); try done.
    intros s'' k Hs''. by rewrite callback_length_heap.
Qed.

Lemma run_iconOf s c evs :
  c < length (heap s) → iconOf (run s evs) c = iconOf s c.
Proof.
  revert s. induction evs as [|e evs IH]; intros s Hc; [done|].
  rewrite run_cons, IH, step_iconOf; [done..|].
  pose proof (step_length_heap s e). lia.
Qed.

(** X4. The icon of a card never changes: whatever happens to the page, a
    card that exists keeps the icon it was created with, so a restart
    reshuffles by building new cards, never by relabelling old ones.
    Until the next restart the board keeps its cards as well, so every
    position shows the same icon throughout a game. *)
Theorem icon_is_immutable (s : State) (evs : list Event) :
  (∀ c, c < length (heap s) → iconOf (run s evs) c = iconOf s c) ∧
  (reachable s → inGame evs → boardIcons (run s evs) = boardIcons s).
Proof.
  split; [intros c; apply run_iconOf|]. intros HB%reachable_BoardInv Hevs.
  unfold boardIcons. rewrite run_cards by done.
  apply list_fmap_ext. intros i c Hc%list_elem_of_lookup_2.
  apply run_iconOf, (board_valid _ _ _ _ _ HB c Hc).
Qed.

Lemma icon_is_immutable_witness :
  let s := pageLoad rnd_zero in
  boardIcons (run s [Click 0; Click 1; Wait 900; Click 5]) = boardIcons s.
Proof.
  refine (proj2 (icon_is_immutable _ _) (reach_load _) _).
  repeat constructor.
Defined.

(** ** New cards *)

(** X15. [createBoard] builds its board from new cards only: none of them
    existed before, so no card of the previous board is on the new one,
    and every card that existed is left exactly as it was, flipped or
    matched as it may be.  The new cards are hidden and carry the
    shuffled icons in order. *)
Theorem restart_builds_new_cards (s : State) (rnd : nat → Q) :
  let s' := createBoard rnd s in
  (∀ c, c ∈ cards s' → length (heap s) ≤ c ∧ tileStatus s' c = Some Hidden) ∧
  (∀ c, c < length (heap s) → heap s' !! c = heap s !! c) ∧
  (reachable s → ∀ c, c ∈ cards s → c ∉ cards s') ∧
  boardIcons s' = Some <$> shuffle rnd (icons ++ icons).
Proof.
  intros s'. subst s'. split; [|split; [|split]].
  - intros c Hc. split; [|by apply createBoard_hidden].
    rewrite createBoard_cards in Hc. by apply elem_of_seq in Hc as [? _].
  - intros c. apply createBoard_heap_keeps.
  - intros HB%reachable_BoardInv c Hc. rewrite createBoard_cards.
    intros [Hge _]%elem_of_seq.
    pose proof (board_valid _ _ _ _ _ HB c Hc). lia.
  - by destruct (createBoard_board rnd s) as (_ & _ & ->).
Qed.

Lemma restart_builds_new_cards_witness :
  let s := run (pageLoad rnd_zero) [Click 0; Click 8] in
  0 ∉ cards (createBoard rnd_half s).
Proof.
  intros s.
  refine (proj1 (proj2 (proj2 (restart_builds_new_cards s rnd_half))) _ 0 _).
  - apply reachable_run, reach_load.
  - apply list_elem_of_lookup. exists 0. by vm_compute.
Defined.

(** ** Counters *)

Lemma flipCard_time s card : time (flipCard s card) = time s.
Proof.
  destruct (accepts s card) eqn:Hacc; [|by rewrite flipCard_ignored].
  destruct (flipCard_outcomes s card Hacc)
    as [[Hne ->]|(a & Hfc & [[Hic ->]|[Hic ->]])]; by inv_fields.
Qed.

Lemma callback_time k s : time s ≤ time (callback k s).
Proof. destruct k; cbn; autorewrite with fields; lia. Qed.

Lemma wait_time ms s : time s ≤ time (step s (Wait ms)).
Proof.
  cbn. apply (iter_inv (λ s', time s ≤ time s')); [|done].
  intros s' Hs'. etransitivity; [done|].
  apply (elapse1_inv (λ s'', time s' ≤ time s'')); try done.
  intros s'' k Hs''. etransitivity; [done|]. apply callback_time.
Qed.

Lemma flipCard_matchedCount_any s card :
  matchedCount (flipCard s card) = matchedCount s ∨
  (matchedCount (flipCard s card) = matchedCount s + 2 ∧
   moves (flipCard s card) = S (moves s)).
Proof.
  destruct (accepts s card) eqn:Hacc; [|left; by rewrite flipCard_ignored].
  destruct (flipCard_outcomes s card Hacc)
    as [[Hne ->]|(a & Hfc & [[Hic ->]|[Hic ->]])]; inv_fields; auto.
Qed.

(** X5. Between two restarts no counter ever goes back: an event leaves
    [moves] as it is or adds 1, leaves [matchedCount] as it is or adds 2,
    and never lowers [time]; a click does not touch [time] at all. *)
Theorem counters_only_grow (s : State) (e : Event) :
  isRestart e = false →
  (moves (step s e) = moves s ∨ moves (step s e) = S (moves s)) ∧
  (matchedCount (step s e) = matchedCount s ∨
   matchedCount (step s e) = matchedCount s + 2) ∧
  time s ≤ time (step s e) ∧
  (∀ i, e = Click i → time (step s e) = time s).
Proof.
  intros He. destruct e as [i|rnd|ms]; [|done|].
  - cbn. destruct (cards s !! i) as [c|]; [|by auto].
    rewrite flipCard_moves, flipCard_time.
    split; [destruct (evaluates s c); auto|].
    split; [|done]. destruct (flipCard_matchedCount_any s c) as [|[]]; auto.
  - rewrite wait_moves, wait_matchedCount.
    split; [auto|]. split; [auto|]. split; [apply wait_time|done].
Qed.

Lemma counters_only_grow_witness :
  time (pageLoad rnd_zero) ≤ time (step (pageLoad rnd_zero) (Wait 1500)).
Proof.
  exact (proj1 (proj2 (proj2
    (counters_only_grow (pageLoad rnd_zero) (Wait 1500) eq_refl)))).
Defined.

Lemma step_pairs_cost_moves s e :
  matchedCount s ≤ 2 * moves s →
  matchedCount (step s e) ≤ 2 * moves (step s e).
Proof.
  intros Hle. destruct e as [i|rnd|ms].
  - cbn. destruct (cards s !! i) as [c|]; [|done].
    destruct (flipCard_matchedCount_any s c) as [->|[-> ->]]; [|lia].
    rewrite flipCard_moves. destruct (evaluates s c); lia.
  - rewrite step_Restart, createBoard_matchedCount. lia.
  - by rewrite wait_moves, wait_matchedCount.
Qed.

(** X6. Every matched pair has cost a move: [matchedCount] never exceeds
    twice [moves], in any state the page can reach.  So a game that
    began with no deferred callback pending is never won in fewer than
    eight moves. *)
Theorem pairs_cost_moves (s : State) :
  reachable s →
  matchedCount s ≤ 2 * moves s ∧
  (playing s → winOverlay s = true → 8 ≤ moves s).
Proof.
  intros Hs.
  assert (matchedCount s ≤ 2 * moves s) as Hle.
  { induction Hs as [rnd|s e Hs IH]; [|by apply step_pairs_cost_moves].
    rewrite pageLoad_unfold, createBoard_matchedCount. lia. }
  split; [done|]. intros (HB & _ & HC)%playing_GameInv Hw.
  destruct (won_matched _ _ _ _ _ _ _ _ _ _ _ HC Hw) as (Hfull & _).
  rewrite Hfull, (board_size _ _ _ _ _ HB) in Hle. lia.
Qed.

Lemma pairs_cost_moves_witness :
  let s := run (pageLoad rnd_zero) full_game in
  matchedCount s ≤ 2 * moves s.
Proof.
  refine (proj1 (pairs_cost_moves _ _)). apply reachable_run, reach_load.
Defined.

(** ** The outcome of a click *)

Lemma accepts_lookup s c :
  accepts s c = true → ∃ cd, heap s !! c = Some cd ∧ status cd = Hidden.
Proof.
  intros [_ Hhid]%accepts_hidden. unfold tileStatus, statusIn in Hhid.
  destruct (heap s !! c) as [cd|]; [|done]. exists cd. split; [done|].
  by injection Hhid.
Qed.

(** X7. The first tile of a turn: an accepted click with no card waiting
    reveals the tile and puts it in the turn; nothing is compared, the
    board stays unlocked and [moves] stays as it is.  If the game had not
    started, the click starts it: an interval of 1000 ms is registered
    and [timer] holds its id; if it had, the timers are left alone. *)
Theorem first_pick (s : State) (i b : nat) :
  cards s !! i = Some b → accepts s b = true → flippedCards s = [] →
  let s' := step s (Click i) in
  tileStatus s' b = Some Revealed ∧ flippedCards s' = [b] ∧
  lockBoard s' = false ∧ moves s' = moves s ∧
  matchedCount s' = matchedCount s ∧ gameStarted s' = true ∧
  (∀ c, c ≠ b → heap s' !! c = heap s !! c) ∧
  (gameStarted s = false →
     timer s' = Some (nextId s) ∧
     timers s' = timers s ++
       [{| tid := nextId s; delay := 1000; every := Some 1000; task := Tick |}]) ∧
  (gameStarted s = true → timer s' = timer s ∧ timers s' = timers s).
Proof.
  intros Hi Hacc Hfc s'. subst s'. cbn. rewrite Hi.
  pose proof Hacc as [Hl Hhid]%accepts_hidden.
  destruct (flipCard_cases s b Hacc) as [[_ ->]|(a & Hfc' & _)];
    [rewrite Hfc; cbn; lia| |congruence].
  inv_fields. rewrite Hl.
  split; [by apply revealed_alter_flipped|]. do 4 (split; [done|]).
  unfold startTimer. split; [by destruct (gameStarted s) eqn:E|].
  split; [intros c Hc; by rewrite list_lookup_alter_ne|].
  split; intros ->; done.
Qed.

Lemma first_pick_witness :
  tileStatus (step (pageLoad rnd_zero) (Click 3)) 3 = Some Revealed.
Proof.
  refine (proj1 (first_pick (pageLoad rnd_zero) 3 3 _ _ _)); reflexivity.
Defined.

(** X8. A match: when an accepted click reveals a second tile with the icon
    of the waiting one, both tiles are matched at once, the turn is
    cleared and the board is unlocked without any delay; [moves] goes up
    by 1 and [matchedCount] by 2, no other card changes, and if the
    counter has reached the size of the board [endGame] is scheduled for
    400 ms later. *)
Theorem second_pick_match (s : State) (i a b : nat) :
  reachable s →
  flippedCards s = [a] → cards s !! i = Some b → accepts s b = true →
  iconOf s a = iconOf s b →
  let s' := step s (Click i) in
  tileStatus s' a = Some Matched ∧ tileStatus s' b = Some Matched ∧
  flippedCards s' = [] ∧ lockBoard s' = false ∧
  moves s' = S (moves s) ∧ matchedCount s' = matchedCount s + 2 ∧
  (∀ c, c ≠ a → c ≠ b → heap s' !! c = heap s !! c) ∧
  (matchedCount s' = length (cards s') →
   ∃ t, t ∈ timers s' ∧ task t = EndGame ∧ delay t = 400).
Proof.
  intros HB%reachable_BoardInv Hfc Hi Hacc Hic s'. subst s'. cbn. rewrite Hi.
  assert (a ∈ flippedCards s) as Ha by (rewrite Hfc; by left).
  pose proof (board_valid _ _ _ _ _ HB a (turn_on_board _ _ _ _ _ HB a Ha)) as Hla.
  destruct (accepts_lookup s b Hacc) as (cd & Hcd & _).
  pose proof (lookup_lt_Some _ _ _ Hcd) as Hlb.
  destruct (flipCard_cases s b Hacc) as [[Hnil _]|(a' & Hfc' & [[_ ->]|[Hne _]])];
    [rewrite Hfc; cbn; lia|congruence| |].
  2:{ rewrite Hfc in Hfc'. injection Hfc' as <-. done. }
  rewrite Hfc in Hfc'. injection Hfc' as <-.
  unfold tileStatus. rewrite handleMatch_timers. inv_fields.
  assert (b < length (alter (set_matched true) a
            (alter (set_flipped true) b (heap s)))) as Hlb'
    by (by rewrite !length_alter).
  assert (a < length (alter (set_flipped true) b (heap s))) as Hla'
    by (by rewrite !length_alter).
  split.
  { apply matched_alter_keeps; [by intros []|].
    apply (matched_alter_matched a a _ Hla'). by right. }
  split; [apply (matched_alter_matched b b _ Hlb'); by right|].
  do 4 (split; [done|]).
  split; [intros c Hca Hcb; by rewrite !list_lookup_alter_ne|].
  intros Hfull. apply Nat.eqb_eq in Hfull. rewrite Hfull.
  eexists. split; [apply elem_of_app; right; by left|done].
Qed.

Lemma second_pick_match_witness :
  tileStatus (run (pageLoad rnd_zero) [Click 0; Click 8]) 8 = Some Matched.
Proof.
  refine (proj1 (proj2 (second_pick_match
    (step (pageLoad rnd_zero) (Click 0)) 8 0 8 _ _ _ _ _))); try reflexivity.
  apply (reach_step _ (Click 0)), reach_load.
Defined.

(** X9. A mismatch: when the icons differ, the second tile is revealed, the
    board is locked, [moves] goes up by 1 and the reversion of exactly
    these two cards is scheduled for 900 ms later; no tile is matched and
    no other card changes. *)
Theorem second_pick_mismatch (s : State) (i a b : nat) :
  reachable s →
  flippedCards s = [a] → cards s !! i = Some b → accepts s b = true →
  iconOf s a ≠ iconOf s b →
  let s' := step s (Click i) in
  tileStatus s' a = Some Revealed ∧ tileStatus s' b = Some Revealed ∧
  flippedCards s' = [a; b] ∧ lockBoard s' = true ∧
  moves s' = S (moves s) ∧ matchedCount s' = matchedCount s ∧
  (∀ c, c ≠ b → heap s' !! c = heap s !! c) ∧
  timers s' = timers (startTimer s) ++
    [{| tid := nextId (startTimer s); delay := 900; every := None;
        task := Revert a b |}].
Proof.
  intros HB%reachable_BoardInv Hfc Hi Hacc Hic s'. subst s'. cbn. rewrite Hi.
  assert (a ∈ flippedCards s) as Ha by (rewrite Hfc; by left).
  pose proof (turn_revealed _ _ _ _ _ HB a Ha) as Har.
  pose proof Hacc as [Hl Hhid]%accepts_hidden. unfold tileStatus in Hhid.
  destruct (flipCard_cases s b Hacc) as [[Hnil _]|(a' & Hfc' & [[Heq _]|[_ ->]])];
    [rewrite Hfc; cbn; lia|congruence| |].
  { rewrite Hfc in Hfc'. injection Hfc' as <-. done. }
  rewrite Hfc in Hfc'. injection Hfc' as <-.
  unfold tileStatus. inv_fields.
  assert (a ≠ b) as Hab by (intros ->; congruence).
  split; [by rewrite status_alter_ne|].
  split; [by apply revealed_alter_flipped|].
  do 4 (split; [done|]).
  split; [intros c Hc; by rewrite list_lookup_alter_ne|done].
Qed.

Lemma second_pick_mismatch_witness :
  lockBoard (run (pageLoad rnd_zero) [Click 0; Click 1]) = true.
Proof.
  refine (proj1 (proj2 (proj2 (proj2 (second_pick_mismatch
    (step (pageLoad rnd_zero) (Click 0)) 1 0 1 _ _ _ _ _)))));
    try reflexivity.
  - apply (reach_step _ (Click 0)), reach_load.
  - by vm_compute.
Defined.

(** ** The cool-down *)

Lemma step_Wait s n : step s (Wait n) = Nat.iter n elapse1 s.
Proof. reflexivity. Qed.

Lemma run_timer_tasks s id t' :
  t' ∈ timers (run_timer s id) →
  ∃ t, t ∈ timers s ∧ task t' = task t ∧ tid t' = tid t.
Proof.
  unfold run_timer. destruct (lookupTimer id s) as [u|];
    [|intros Ht'; by exists t'].
  intros Ht'%callback_timers_sub. cbn in Ht'. destruct (every u) as [ms|].
  - apply list_elem_of_fmap in Ht' as (t & -> & Ht). exists t.
    destruct (rearm_same id ms t) as (-> & -> & _). done.
  - apply elem_of_cancel in Ht' as [_ Ht']. by exists t'.
Qed.

Lemma run_timer_board_other s id :
  (∀ u, lookupTimer id s = Some u → ¬ isRevert u) →
  board (run_timer s id) = board s.
Proof.
  intros Hu. unfold run_timer. destruct (lookupTimer id s) as [u|]; [|done].
  specialize (Hu u eq_refl). unfold isRevert in Hu.
  destruct (task u); [done|done|].
  change (callback EndGame ?x) with (endGame x).
  unfold board. by autorewrite with fields.
Qed.

Lemma noRevert_run_timer s id :
  noRevert s → noRevert (run_timer s id) ∧ board (run_timer s id) = board s.
Proof.
  intros Hno. split.
  - intros t' (t & Ht & Hk & _)%run_timer_tasks Hr.
    apply (Hno t Ht). unfold isRevert in *. by rewrite <- Hk.
  - apply run_timer_board_other. intros u [Hu _]%lookupTimer_Some. by apply Hno.
Qed.

Lemma noRevert_fold l s :
  noRevert s →
  noRevert (fold_left run_timer l s) ∧ board (fold_left run_timer l s) = board s.
Proof.
  intros Hno.
  apply (fold_left_inv (λ s', noRevert s' ∧ board s' = board s)); [|done].
  intros s' id [Hno' <-]. by apply noRevert_run_timer.
Qed.

Lemma noRevert_elapse1 s :
  noRevert s → noRevert (elapse1 s) ∧ board (elapse1 s) = board s.
Proof.
  intros Hno. unfold elapse1.
  destruct (noRevert_fold (due (timers (set_timers (tick_down <$> timers s) s)))
              (set_timers (tick_down <$> timers s) s)) as [H1 H2]; [|done].
  intros t. cbn. intros (t0 & -> & Ht0)%list_elem_of_fmap. by apply (Hno t0).
Qed.

Lemma noRevert_iter n s :
  noRevert s →
  noRevert (Nat.iter n elapse1 s) ∧ board (Nat.iter n elapse1 s) = board s.
Proof.
  intros Hno. apply (iter_inv (λ s', noRevert s' ∧ board s' = board s)); [|done].
  intros s' [Hno' <-]. by apply noRevert_elapse1.
Qed.

(** The reversion runs: the two cards are flipped back, the turn is
    cleared, the lock released, and no reversion is left. *)
Lemma run_timer_reverts s r a b :
  GameInv s → r ∈ timers s → task r = Revert a b →
  board (run_timer s (tid r)) = reverted a b s ∧
  noRevert (run_timer s (tid r)).
Proof.
  intros (HB & HT & HC) Hr Hk. unfold run_timer.
  destruct (lookupTimer (tid r) s) as [u|] eqn:Hu;
    [|by destruct (lookupTimer_None _ _ r Hu Hr)].
  apply lookupTimer_Some in Hu as [Hu Hid].
  rewrite (unique_tid _ u r (ids_nodup _ _ _ _ HT) Hu Hr Hid).
  rewrite (periods _ _ _ _ HT r Hr), Hk. split; [done|].
  intros t. cbn. intros [Hne Ht]%elem_of_cancel Hrt. apply Hne.
  apply (revert_unique _ _ _ _ _ _ _ _ _ _ _ HC); try done.
  apply isRevert_task. eauto.
Qed.

Lemma fold_cool l s r a b :
  GameInv s → r ∈ timers s → task r = Revert a b →
  (tid r ∉ l →
     board (fold_left run_timer l s) = board s ∧
     r ∈ timers (fold_left run_timer l s)) ∧
  (tid r ∈ l →
     board (fold_left run_timer l s) = reverted a b s ∧
     noRevert (fold_left run_timer l s)).
Proof.
  revert s. induction l as [|id l IH]; intros s HG Hr Hk.
  { split; [done|]. by intros ?%not_elem_of_nil. }
  pose proof HG as (HB & HT & HC). cbn.
  destruct (decide (id = tid r)) as [->|Hne].
  - split; [intros []%not_elem_of_cons; done|]. intros _.
    destruct (run_timer_reverts s r a b HG Hr Hk) as [Hb Hno].
    destruct (noRevert_fold l _ Hno) as [Hno' Hb']. by rewrite Hb'.
  - assert (board (run_timer s id) = board s) as Hb.
    { apply run_timer_board_other. intros u [Hu <-]%lookupTimer_Some Hru.
      apply Hne. apply (revert_unique _ _ _ _ _ _ _ _ _ _ _ HC); try done.
      apply isRevert_task. eauto. }
    assert (r ∈ timers (run_timer s id)) as Hr'.
    { apply run_timer_keep; try done; congruence. }
    destruct (IH _ (GameInv_run_timer s id HG) Hr' Hk) as [IH1 IH2].
    assert (reverted a b (run_timer s id) = reverted a b s) as Hrv.
    { unfold reverted. unfold board in Hb. by injection Hb as -> -> _ _ -> ->. }
    split.
    + intros [_ Hl]%not_elem_of_cons. destruct (IH1 Hl).
      split; [congruence|done].
    + intros [?|Hl]%elem_of_cons; [done|]. destruct (IH2 Hl).
      split; [congruence|done].
Qed.

Lemma elapse1_cool s r a b :
  GameInv s → r ∈ timers s → task r = Revert a b →
  (delay r = 1 →
     board (elapse1 s) = reverted a b s ∧ noRevert (elapse1 s)) ∧
  (2 ≤ delay r →
     board (elapse1 s) = board s ∧
     ∃ r', r' ∈ timers (elapse1 s) ∧ task r' = Revert a b ∧
           delay r' = delay r - 1).
Proof.
  intros HG Hr Hk. pose proof (GameInv_tick_down s HG) as HG1.
  pose proof HG1 as (_ & HT1 & _).
  assert (tick_down r ∈ timers (set_timers (tick_down <$> timers s) s)) as Hr1
    by (by apply list_elem_of_fmap_2).
  destruct (fold_cool (due (timers (set_timers (tick_down <$> timers s) s)))
              _ (tick_down r) a b HG1 Hr1 Hk) as [Hkeep Hfire].
  unfold elapse1. split.
  - intros Hd. apply Hfire. unfold due. apply list_elem_of_fmap.
    exists (tick_down r). split; [done|]. apply list_elem_of_filter.
    split; [cbn; lia|done].
  - intros Hd. destruct Hkeep as [Hb Hin].
    { apply not_due; [apply (ids_nodup _ _ _ _ HT1)|done|cbn; lia]. }
    split; [done|]. exists (tick_down r). split; [done|]. split; [done|].
    cbn. lia.
Qed.

Lemma iter_cool n s r a b :
  GameInv s → r ∈ timers s → task r = Revert a b → n < delay r →
  GameInv (Nat.iter n elapse1 s) ∧
  board (Nat.iter n elapse1 s) = board s ∧
  ∃ r', r' ∈ timers (Nat.iter n elapse1 s) ∧ task r' = Revert a b ∧
        delay r' = delay r - n.
Proof.
  intros HG Hr Hk. induction n as [|n IH]; intros Hn.
  { split; [done|]. split; [done|]. exists r. repeat split; try done. lia. }
  destruct IH as (HG' & Hb & r' & Hr' & Hk' & Hd'); [lia|].
  rewrite Nat.iter_succ.
  split; [by apply GameInv_elapse1|].
  destruct (elapse1_cool _ r' a b HG' Hr' Hk') as [_ Hstep].
  destruct Hstep as (Hb' & r'' & Hr'' & Hk'' & Hd''); [lia|].
  split; [by rewrite Hb', Hb|]. exists r''. repeat split; try done. lia.
Qed.

Lemma iter_revert s r a b :
  GameInv s → r ∈ timers s → task r = Revert a b → 1 ≤ delay r →
  board (Nat.iter (delay r) elapse1 s) = reverted a b s ∧
  noRevert (Nat.iter (delay r) elapse1 s).
Proof.
  intros HG Hr Hk Hd.
  destruct (iter_cool (delay r - 1) s r a b HG Hr Hk)
    as (HG' & Hb & r' & Hr' & Hk' & Hd'); [lia|].
  destruct (delay r) as [|d] eqn:Ed; [lia|].
  replace (S d - 1) with d in * by lia.
  rewrite Nat.iter_succ.
  destruct (elapse1_cool _ r' a b HG' Hr' Hk') as [Hfire _].
  destruct Hfire as [Hb' Hno]; [lia|]. split; [|done].
  rewrite Hb'. unfold reverted. unfold board in Hb.
  by injection Hb as -> -> _ _ -> ->.
Qed.

Lemma hidden_after_unflip (h : list Card) (c : nat) :
  statusIn h c = Some Revealed →
  statusIn (alter (set_flipped false) c h) c = Some Hidden.
Proof.
  rewrite status_alter, decide_True by done. unfold statusIn.
  destruct (h !! c) as [cd|]; cbn; [|done].
  rewrite status_set_flipped. unfold status.
  destruct (matched cd), (flipped cd); congruence.
Qed.

Lemma status_unflip_other (h : list Card) (c c' : nat) :
  statusIn h c' = Some Hidden →
  statusIn (alter (set_flipped false) c h) c' = Some Hidden.
Proof.
  intros Hh. rewrite status_alter. case_decide; [subst|done].
  unfold statusIn in *. destruct (h !! c') as [cd|]; cbn in *; [|done].
  rewrite status_set_flipped. unfold status in *.
  destruct (matched cd), (flipped cd); congruence.
Qed.

(** X10. The cool-down of a mismatch, in a game that began with no deferred
    callback pending.  For the 900 ms after the second pick nothing
    happens to the cards: the board stays locked, both tiles stay
    revealed, every click is ignored.  At 900 ms both tiles are hidden
    again, the turn is empty and the board unlocked; no other card,
    [moves] and [matchedCount] are as the mismatch left them. *)
Theorem cool_down (s : State) (i a b : nat) :
  playing s →
  flippedCards s = [a] → cards s !! i = Some b → accepts s b = true →
  iconOf s a ≠ iconOf s b →
  let s1 := step s (Click i) in
  (∀ n, n < 900 →
     let s2 := step s1 (Wait n) in
     board s2 = board s1 ∧ lockBoard s2 = true ∧
     flippedCards s2 = [a; b] ∧ ∀ j, step s2 (Click j) = s2) ∧
  (let s3 := step s1 (Wait 900) in
   lockBoard s3 = false ∧ flippedCards s3 = [] ∧
   tileStatus s3 a = Some Hidden ∧ tileStatus s3 b = Some Hidden ∧
   (∀ c, c ≠ a → c ≠ b → heap s3 !! c = heap s1 !! c) ∧
   cards s3 = cards s1 ∧ moves s3 = moves s1 ∧
   matchedCount s3 = matchedCount s1).
Proof.
  intros Hs Hfc Hi Hacc Hic s1.
  assert (playing s1) as Hs1 by (by apply play_step).
  pose proof (playing_GameInv s1 Hs1) as HG1. pose proof HG1 as (HB1 & _ & _).
  assert (lockBoard s1 = true ∧ flippedCards s1 = [a; b] ∧
          ∃ r, r ∈ timers s1 ∧ task r = Revert a b ∧ delay r = 900)
    as (Hl1 & Hfc1 & r & Hr & Hk & Hd).
  { subst s1. cbn. rewrite Hi.
    destruct (flipCard_cases s b Hacc)
      as [[Hnil _]|(a' & Hfc' & [[Heq _]|[_ ->]])];
      [rewrite Hfc; cbn; lia|congruence| |].
    { rewrite Hfc in Hfc'. injection Hfc' as <-. done. }
    rewrite Hfc in Hfc'. injection Hfc' as <-. inv_fields.
    split; [done|]. split; [done|]. eexists.
    split; [apply elem_of_app; right; by left|done]. }
  split.
  - intros n Hn s2. subst s2. rewrite step_Wait.
    destruct (iter_cool n s1 r a b HG1 Hr Hk) as (_ & Hb & _); [lia|].
    set (s2 := Nat.iter n elapse1 s1) in *. clearbody s2.
    split; [done|]. unfold board in Hb.
    injection Hb as _ _ Hfc2 Hl2 _ _. rewrite Hl2, Hfc2.
    do 2 (split; [done|]).
    intros j. cbn [step]. destruct (cards s2 !! j); [|done].
    apply flipCard_ignored. unfold accepts. by rewrite Hl2, Hl1.
  - intros s3. subst s3. rewrite step_Wait, <- Hd.
    destruct (iter_revert s1 r a b HG1 Hr Hk) as [Hb _]; [lia|].
    set (s3 := Nat.iter (delay r) elapse1 s1) in *. clearbody s3.
    unfold board, reverted in Hb.
    injection Hb as Hh -> -> -> -> ->.
    pose proof (turn_revealed _ _ _ _ _ HB1) as Hrev. rewrite Hfc1 in Hrev.
    assert (a ≠ b) as Hab.
    { pose proof (turn_nodup _ _ _ _ _ HB1) as Hnd. rewrite Hfc1 in Hnd.
      apply NoDup_cons in Hnd as [Hnd _]. intros ->. apply Hnd. by left. }
    unfold tileStatus. rewrite Hh. do 2 (split; [done|]).
    split.
    { rewrite status_alter_ne by done. apply hidden_after_unflip, Hrev. by left. }
    split.
    { apply hidden_after_unflip. rewrite status_alter_ne by done.
      apply Hrev. right. by left. }
    split; [|done]. intros c Hca Hcb. by rewrite !list_lookup_alter_ne.
Qed.

Lemma cool_down_witness :
  let s1 := run (pageLoad rnd_zero) [Click 0; Click 1] in
  lockBoard (step s1 (Wait 900)) = false.
Proof.
  refine (proj1 (proj2 (cool_down (step (pageLoad rnd_zero) (Click 0))
    1 0 1 _ _ _ _ _))); try reflexivity.
  - apply (play_step _ (Click 0)); [apply play_load|reflexivity].
  - by vm_compute.
Defined.

(** X11. The board never stays locked: in a game that began with no deferred
    callback pending, whatever the state, 900 ms without a click leave
    the board unlocked and the turn with at most one tile. *)
Theorem lock_is_released (s : State) :
  playing s →
  lockBoard (step s (Wait 900)) = false ∧
  length (flippedCards (step s (Wait 900))) ≤ 1.
Proof.
  intros Hs. pose proof (playing_GameInv s Hs) as HG.
  pose proof HG as (HB & HT & HC).
  assert (lockBoard (step s (Wait 900)) = false) as Hl.
  { rewrite step_Wait. destruct (lockBoard s) eqn:Hl.
    - destruct (lock_revert _ _ _ _ _ _ _ _ _ _ _ HC Hl) as (r & Hr & Hrr).
      apply isRevert_task in Hrr as (a & b & Hk).
      destruct (revert_turn _ _ _ _ _ _ _ _ _ _ _ HC r a b Hr Hk) as (_ & _ & Hd).
      pose proof (reachable_rested s (playing_reachable s Hs) r Hr) as Hd1.
      destruct (iter_revert s r a b HG Hr Hk Hd1) as [Hb Hno].
      assert (∃ k, 900 = k + delay r) as [k ->] by (exists (900 - delay r); lia).
      rewrite Nat.iter_add.
      destruct (noRevert_iter k _ Hno) as [_ Hb'].
      rewrite Hb in Hb'. unfold board, reverted in Hb'.
      by injection Hb' as _ _ _ -> _ _.
    - assert (noRevert s) as Hno.
      { intros t Ht (a & b & Hk)%isRevert_task.
        destruct (revert_turn _ _ _ _ _ _ _ _ _ _ _ HC t a b Ht Hk) as (_ & ? & _).
        congruence. }
      generalize 900. intros k.
      destruct (noRevert_iter k s Hno) as [_ Hb].
      unfold board in Hb. by injection Hb as _ _ _ -> _ _. }
  split; [done|].
  assert (playing (step s (Wait 900))) as Hs' by (by apply play_step).
  apply playing_GameInv in Hs' as (HB' & _).
  pose proof (turn_size _ _ _ _ _ HB') as Hsz. by rewrite Hl in Hsz.
Qed.

Lemma lock_is_released_witness :
  lockBoard (step (run (pageLoad rnd_zero) [Click 0; Click 1; Wait 250])
               (Wait 900)) = false.
Proof.
  refine (proj1 (lock_is_released _ _)).
  apply playing_run; [apply play_load|]. repeat constructor.
Defined.

(** ** Tiles are matched in pairs *)

Lemma matchedWith_iff s s' ic :
  cards s' = cards s →
  (∀ c, c ∈ cards s →
     (tileStatus s' c = Some Matched ∧ iconOf s' c = Some ic) ↔
     (tileStatus s c = Some Matched ∧ iconOf s c = Some ic)) →
  matchedWith s' ic = matchedWith s ic.
Proof.
  intros Hc Hsame. unfold matchedWith. rewrite Hc. by apply filter_iff_in.
Qed.

Lemma matchedWith_flipped s s' ic b c :
  cards s' = cards s → heap s' = alter (set_flipped b) c (heap s) →
  matchedWith s' ic = matchedWith s ic.
Proof.
  intros Hc Hh. apply matchedWith_iff; [done|]. intros c' _.
  unfold tileStatus, iconOf. rewrite Hh.
  by rewrite matched_alter_flipped, iconOf_alter_flag.
Qed.

Lemma flipCard_pairs s c ic :
  BoardInv s → c ∈ cards s →
  Nat.Even (length (matchedWith s ic)) →
  Nat.Even (length (matchedWith (flipCard s c) ic)).
Proof.
  intros HB Hc Hev.
  destruct (accepts s c) eqn:Hacc; [|by rewrite flipCard_ignored].
  pose proof Hacc as [Hl Hhid]%accepts_hidden.
  pose proof (turn_size _ _ _ _ _ HB) as Hsz. rewrite Hl in Hsz.
  pose proof (board_valid _ _ _ _ _ HB) as Hvalid.
  pose proof (board_nodup _ _ _ _ _ HB) as Hnd.
  destruct (flipCard_cases s c Hacc Hsz)
    as [[Hfc ->]|(a & Hfc & [[Hic ->]|[Hic ->]])].
  - by rewrite (matchedWith_flipped s _ ic true c) by (by inv_fields).
  - assert (a ∈ flippedCards s) as Ha by (rewrite Hfc; by left).
    pose proof (turn_on_board _ _ _ _ _ HB a Ha) as Hab.
    pose proof (turn_revealed _ _ _ _ _ HB a Ha) as Har.
    fold (tileStatus s a) in Har.
    assert (a ≠ c) as Hac by (intros ->; congruence).
    set (s' := handleMatch a c (set_lockBoard true (secondPick s a c))).
    assert (cards s' = cards s) as Hcs by (subst s'; by inv_fields).
    assert (∀ c', iconOf s' c' = iconOf s c') as Hicon.
    { intros c'. subst s'. unfold iconOf. inv_fields.
      by rewrite !iconOf_alter_flag. }
    assert (∀ c', c' ∈ cards s →
              tileStatus s' c' = Some Matched ↔
              (tileStatus s c' = Some Matched ∨ c' = a) ∨ c' = c) as Hst.
    { intros c' Hc'. subst s'. unfold tileStatus. inv_fields.
      rewrite matched_alter_matched by (rewrite !length_alter; auto).
      rewrite matched_alter_matched by (rewrite !length_alter; auto).
      by rewrite matched_alter_flipped. }
    destruct (decide (iconOf s a = Some ic)) as [Hic'|Hic'].
    + destruct Hev as [k Hk]. exists (S k).
      set (P0 := λ c', tileStatus s c' = Some Matched ∧ iconOf s c' = Some ic).
      set (P1 := λ c', P0 c' ∨ c' = a).
      set (P2 := λ c', P1 c' ∨ c' = c).
      assert (matchedWith s' ic = filter P2 (cards s)) as ->.
      { unfold matchedWith. rewrite Hcs. apply filter_iff_in. intros c' Hc'.
        rewrite Hicon, (Hst c' Hc'). unfold P2, P1, P0.
        split; [tauto|]. intros [[[? ?]| ->]| ->]; split; auto; congruence. }
      rewrite (length_filter_add P1 P2 (cards s) c); [|done|done| |done].
      * rewrite (length_filter_add P0 P1 (cards s) a); [|done|done| |done].
        -- change (filter P0 (cards s)) with (matchedWith s ic). lia.
        -- unfold P0. intros [? _]. congruence.
      * unfold P1, P0. intros [[? _]|?]; congruence.
    + rewrite (matchedWith_iff s s' ic Hcs); [done|].
      intros c' Hc'. rewrite Hicon, (Hst c' Hc').
      split; [|tauto]. intros [[[?| ->]| ->] ?]; [done| |]; congruence.
  - by rewrite (matchedWith_flipped s _ ic true c) by (by inv_fields).
Qed.

Lemma callback_pairs k s ic :
  matchedWith (callback k s) ic = matchedWith s ic.
Proof.
  destruct k as [|a b|]; [done| |].
  - transitivity (matchedWith (removeFlipped a s) ic).
    + apply (matchedWith_flipped _ _ ic false b); reflexivity.
    + apply (matchedWith_flipped _ _ ic false a); reflexivity.
  - apply matchedWith_iff; change (callback EndGame s) with (endGame s).
    + by autorewrite with fields.
    + intros c _. unfold tileStatus, iconOf. by autorewrite with fields.
Qed.

(** X14. Tiles are matched two at a time and only with their partner: in
    every state the page can reach, each icon shows on an even number of
    matched tiles of the board. *)
Theorem matched_in_pairs (s : State) (ic : string) :
  reachable s → Nat.Even (length (matchedWith s ic)).
Proof.
  induction 1 as [rnd|s e Hs IH].
  - exists 0. rewrite pageLoad_unfold. unfold matchedWith.
    rewrite filter_none; [done|]. intros c Hc [Hm _].
    rewrite (createBoard_hidden rnd initial c Hc) in Hm. done.
  - pose proof (reachable_BoardInv s Hs) as HB. destruct e as [i|rnd|ms].
    + cbn [step]. destruct (cards s !! i) as [c|] eqn:Hc; [|done].
      apply flipCard_pairs; [done| |done]. by eapply list_elem_of_lookup_2.
    + exists 0. rewrite step_Restart. unfold matchedWith.
      rewrite filter_none; [done|]. intros c Hc [Hm _].
      rewrite (createBoard_hidden rnd s c Hc) in Hm. done.
    + rewrite step_Wait.
      apply (iter_inv (λ s', Nat.Even (length (matchedWith s' ic)))); [|done].
      apply elapse1_inv; [done|]. intros s' k. by rewrite callback_pairs.
Qed.

Lemma matched_in_pairs_witness :
  Nat.Even (length (matchedWith
    (run (pageLoad rnd_zero) [Click 0; Click 8; Click 1]) "fa-star")).
Proof. apply matched_in_pairs, reachable_run, reach_load. Defined.

(** ** The elapsed-time counter *)

Lemma run_timer_matchedCount s id :
  matchedCount (run_timer s id) = matchedCount s ∧
  cards (run_timer s id) = cards s.
Proof.
  unfold run_timer. destruct (lookupTimer id s); [|done].
  by rewrite callback_matchedCount, callback_cards.
Qed.

(** While the board is incomplete no [endGame] is pending, so a timer
    other than the interval leaves [time] and the interval alone. *)
Lemma run_timer_tick_other s id t :
  GameInv s → matchedCount s ≠ length (cards s) →
  t ∈ timers s → task t = Tick → id ≠ tid t →
  time (run_timer s id) = time s ∧ t ∈ timers (run_timer s id).
Proof.
  intros (HB & HT & HC) Hrun Ht Hk Hid. unfold run_timer.
  destruct (lookupTimer id s) as [u|] eqn:Hu; [|done].
  apply lookupTimer_Some in Hu as [Hu <-].
  rewrite (periods _ _ _ _ HT u Hu).
  destruct (task u) as [|a b|] eqn:Hku.
  - destruct (tick_owned _ _ _ _ HT u Hu Hku) as [Hu' _].
    destruct (tick_owned _ _ _ _ HT t Ht Hk) as [Ht' _]. congruence.
  - cbn. split; [done|]. by apply elem_of_cancel.
  - by destruct (Hrun (endGame_matched _ _ _ _ _ _ _ _ _ _ _ HC u Hu Hku)).
Qed.

Lemma run_timer_tick s t :
  GameInv s → t ∈ timers s → task t = Tick →
  time (run_timer s (tid t)) = S (time s) ∧
  ∃ t', t' ∈ timers (run_timer s (tid t)) ∧ task t' = Tick ∧
        tid t' = tid t ∧ delay t' = 1000.
Proof.
  intros (HB & HT & HC) Ht Hk. unfold run_timer.
  destruct (lookupTimer (tid t) s) as [u|] eqn:Hu;
    [|by destruct (lookupTimer_None _ _ t Hu Ht)].
  apply lookupTimer_Some in Hu as [Hu Hid].
  rewrite (unique_tid _ u t (ids_nodup _ _ _ _ HT) Hu Ht Hid).
  rewrite (periods _ _ _ _ HT t Ht), Hk. cbn. split; [done|].
  exists (rearm (tid t) 1000 t). split; [by apply list_elem_of_fmap_2|].
  unfold rearm. by rewrite decide_True.
Qed.

Lemma fold_tick l s t :
  GameInv s → matchedCount s ≠ length (cards s) → NoDup l →
  t ∈ timers s → task t = Tick →
  (tid t ∉ l →
     time (fold_left run_timer l s) = time s ∧
     t ∈ timers (fold_left run_timer l s)) ∧
  (tid t ∈ l →
     time (fold_left run_timer l s) = S (time s) ∧
     ∃ t', t' ∈ timers (fold_left run_timer l s) ∧ task t' = Tick ∧
           delay t' = 1000).
Proof.
  revert s t. induction l as [|id l IH]; intros s t HG Hrun Hnd Ht Hk.
  { split; [done|]. by intros ?%not_elem_of_nil. }
  apply NoDup_cons in Hnd as [Hid Hnd].
  destruct (run_timer_matchedCount s id) as [Hmc Hcs].
  assert (matchedCount (run_timer s id) ≠ length (cards (run_timer s id)))
    as Hrun' by (by rewrite Hmc, Hcs).
  pose proof (GameInv_run_timer s id HG) as HG'. cbn.
  destruct (decide (id = tid t)) as [->|Hne].
  - split; [intros []%not_elem_of_cons; done|]. intros _.
    destruct (run_timer_tick s t HG Ht Hk) as (Htm & t' & Ht' & Hk' & Hid' & Hd').
    destruct (IH _ t' HG' Hrun' Hnd Ht' Hk') as [IH1 _].
    destruct IH1 as [Htm' Hin]; [by rewrite Hid'|].
    split; [congruence|]. by exists t'.
  - destruct (run_timer_tick_other s id t HG Hrun Ht Hk Hne) as [Htm Ht'].
    destruct (IH _ t HG' Hrun' Hnd Ht' Hk) as [IH1 IH2]. split.
    + intros [_ Hl]%not_elem_of_cons. destruct (IH1 Hl).
      split; [congruence|done].
    + intros [?|Hl]%elem_of_cons; [done|]. destruct (IH2 Hl).
      split; [congruence|done].
Qed.

Lemma elapse1_tick s t :
  GameInv s → matchedCount s ≠ length (cards s) →
  t ∈ timers s → task t = Tick →
  (delay t = 1 →
     time (elapse1 s) = S (time s) ∧
     ∃ t', t' ∈ timers (elapse1 s) ∧ task t' = Tick ∧ delay t' = 1000) ∧
  (2 ≤ delay t →
     time (elapse1 s) = time s ∧
     ∃ t', t' ∈ timers (elapse1 s) ∧ task t' = Tick ∧
           delay t' = delay t - 1).
Proof.
  intros HG Hrun Ht Hk. pose proof (GameInv_tick_down s HG) as HG1.
  pose proof HG1 as (_ & HT1 & _).
  assert (tick_down t ∈ timers (set_timers (tick_down <$> timers s) s)) as Ht1
    by (by apply list_elem_of_fmap_2).
  assert (NoDup (due (timers (set_timers (tick_down <$> timers s) s)))) as Hnd.
  { unfold due. apply NoDup_tid_filter, (ids_nodup _ _ _ _ HT1). }
  destruct (fold_tick _ _ (tick_down t) HG1 Hrun Hnd Ht1 Hk) as [Hkeep Hfire].
  unfold elapse1. split.
  - intros Hd. apply Hfire. unfold due. apply list_elem_of_fmap.
    exists (tick_down t). split; [done|]. apply list_elem_of_filter.
    split; [cbn; lia|done].
  - intros Hd. destruct Hkeep as [Htm Hin].
    { apply not_due; [apply (ids_nodup _ _ _ _ HT1)|done|cbn; lia]. }
    split; [done|]. exists (tick_down t). split; [done|]. split; [done|].
    cbn. lia.
Qed.

Lemma iter_tick n s t :
  GameInv s → matchedCount s ≠ length (cards s) →
  t ∈ timers s → task t = Tick → 1 ≤ delay t → delay t ≤ 1000 →
  ∃ q r, n + (1000 - delay t) = 1000 * q + r ∧ r < 1000 ∧
    time (Nat.iter n elapse1 s) = time s + q ∧
    ∃ t', t' ∈ timers (Nat.iter n elapse1 s) ∧ task t' = Tick ∧
          delay t' = 1000 - r.
Proof.
  intros HG Hrun Ht Hk Hd1 Hd2. induction n as [|n IH].
  { exists 0, (1000 - delay t). split; [lia|]. split; [lia|].
    split; [cbn; lia|]. exists t. repeat split; try done. lia. }
  destruct IH as (q & r & Heq & Hr & Htm & t' & Ht' & Hk' & Hd').
  rewrite Nat.iter_succ.
  assert (GameInv (Nat.iter n elapse1 s)) as HG'
    by (apply iter_inv; [apply GameInv_elapse1|done]).
  assert (matchedCount (Nat.iter n elapse1 s) ≠
          length (cards (Nat.iter n elapse1 s))) as Hrun'.
  { rewrite <- !step_Wait. by rewrite wait_matchedCount, wait_cards. }
  destruct (elapse1_tick _ t' HG' Hrun' Ht' Hk') as [Hfire Hkeep].
  destruct (decide (r = 999)) as [->|Hne].
  - destruct Hfire as (Htm' & t'' & Ht'' & Hk'' & Hd''); [lia|].
    exists (S q), 0. split; [lia|]. split; [lia|]. split; [lia|].
    exists t''. repeat split; try done.
  - destruct Hkeep as (Htm' & t'' & Ht'' & Hk'' & Hd''); [lia|].
    exists q, (S r). split; [lia|]. split; [lia|]. split; [lia|].
    exists t''. repeat split; try done. lia.
Qed.

Lemma revealed_not_full s c :
  BoardInv s → c ∈ cards s → tileStatus s c = Some Revealed →
  matchedCount s ≠ length (cards s).
Proof.
  intros HI Hc Hr Hfull. apply (count_full_iff s HI) in Hfull.
  specialize (Hfull c Hc). congruence.
Qed.

(** X12. [time] counts whole seconds.  In a game that began with no deferred
    callback pending and whose board is not yet complete, waiting [ms]
    milliseconds while the interval has [d] milliseconds to its next
    tick adds [(ms + 1000 - d) / 1000] to [time].  The interval starts
    with the first reveal of the game, so [ms] milliseconds after that
    click [time] has grown by [ms / 1000]. *)
Theorem time_counts_seconds (s : State) :
  playing s →
  (∀ t ms, matchedCount s ≠ length (cards s) →
     t ∈ timers s → task t = Tick → delay t ≤ 1000 →
     time (step s (Wait ms)) = time s + (ms + (1000 - delay t)) / 1000) ∧
  (∀ i b ms, gameStarted s = false → flippedCards s = [] →
     cards s !! i = Some b → accepts s b = true →
     time (run s [Click i; Wait ms]) = time s + ms / 1000).
Proof.
  intros Hs.
  assert (∀ s t ms, playing s → matchedCount s ≠ length (cards s) →
     t ∈ timers s → task t = Tick → delay t ≤ 1000 →
     time (step s (Wait ms)) = time s + (ms + (1000 - delay t)) / 1000) as Hgen.
  { clear s Hs. intros s t ms Hs Hrun Ht Hk Hd. rewrite step_Wait.
    pose proof (reachable_rested s (playing_reachable s Hs) t Ht) as Hd1.
    destruct (iter_tick ms s t (playing_GameInv s Hs) Hrun Ht Hk Hd1 Hd)
      as (q & r & Heq & Hr & -> & _).
    f_equal. apply (Nat.div_unique _ _ _ r); lia. }
  split; [intros t ms; by apply Hgen|].
  intros i b ms Hst Hfc Hi Hacc.
  change (run s [Click i; Wait ms]) with (step (step s (Click i)) (Wait ms)).
  assert (playing (step s (Click i))) as Hs1 by (by apply play_step).
  pose proof (playing_GameInv _ Hs1) as (HB1 & _).
  assert (b ∈ cards s) as Hb by (by eapply list_elem_of_lookup_2).
  pose proof Hacc as [Hl Hhid]%accepts_hidden.
  assert (time (step s (Click i)) = time s ∧
          tileStatus (step s (Click i)) b = Some Revealed ∧
          cards (step s (Click i)) = cards s ∧
          {| tid := nextId s; delay := 1000; every := Some 1000; task := Tick |}
            ∈ timers (step s (Click i))) as (Htm & Hrev & Hcs & Ht).
  { cbn [step]. rewrite Hi.
    destruct (flipCard_cases s b Hacc) as [[_ ->]|(a & Hfc' & _)];
      [rewrite Hfc; cbn; lia| |congruence].
    inv_fields. split; [done|].
    split; [by apply revealed_alter_flipped|]. split; [done|].
    unfold startTimer. rewrite Hst. cbn. apply elem_of_app. right. by left. }
  rewrite (Hgen _ _ ms Hs1 (revealed_not_full _ b HB1 ltac:(by rewrite Hcs) Hrev)
             Ht eq_refl); cbn [delay]; [|lia].
  rewrite Htm. f_equal. f_equal. lia.
Qed.

Lemma time_counts_seconds_witness :
  time (run (pageLoad rnd_zero) [Click 0; Wait 2500]) =
  time (pageLoad rnd_zero) + 2500 / 1000.
Proof.
  refine (proj2 (time_counts_seconds (pageLoad rnd_zero) (play_load _))
            0 0 2500 _ _ _ _); reflexivity.
Defined.
